(** * Room coordination of the Quiz server: storage and WebSocket coordinator

    A shallow embedding of the realtime room subsystem of the Quiz
    repository: the in-memory repository [MemStorage] (server/storage.ts)
    and the WebSocket message and close handlers of [registerRoutes]
    (server/routes.ts), followed by the properties of the specification
    that concern them.  The development then goes on to the rest of the
    repository class (users, game results, solo results and the solo
    leaderboard), the data file of [FileStorage], and the HTTP routes for
    scores, solo results and the leaderboard, with further properties read
    off the code.

    Conventions of the embedding.
    - A JavaScript [Map] iterates in insertion order, and the handlers depend
      on that order ([find] over [values()], the first matching entry of the
      close handler, the stable [sort] of the room list).  Maps are therefore
      association lists in insertion order, see [JsMap].
    - [randomUUID()] and [new Date()] are inputs supplied by the environment:
      every inbound frame comes with an [Env] holding the values these calls
      return while the frame is handled.
    - The handlers are [async], but every [await] is on a promise that is
      already settled by synchronous code, so a handler runs to completion
      before the next transport event; a handler is a function from the
      world to the new world and the list of frames it sent, in send order.
    - Numbers are integers ([Z]); a frame with a fractional number is
      outside the model.
    - A date field holds a [Date], given by its epoch milliseconds, or the
      ISO string that a record read back from the data file carries instead,
      see [DateField].  A call of [getTime] on such a string throws; a
      function that can throw this way returns an [option], [None] standing
      for the exception. *)

From Stdlib Require Import List String ZArith Bool Lia Permutation Sorted.
Import ListNotations.
Local Open Scope string_scope.
Local Open Scope list_scope.
Local Open Scope Z_scope.

(** ** JavaScript values *)

(** [x || d] on numbers: [0] is falsy. *)
Definition or_default (x d : Z) : Z := if x =? 0 then d else x.

(** [Number(v) || d], where [v] is [None] when [Number(v)] is [NaN]
    (an absent field, a non-numeric value). *)
Definition number_or (v : option Z) (d : Z) : Z :=
  match v with
  | Some x => or_default x d
  | None => d
  end.

(** Truthiness of a [string | null]: [null] and the empty string are falsy. *)
Definition truthy (s : option string) : bool :=
  match s with
  | Some x => negb (x =? "")%string
  | None => false
  end.

(** [a === b] on [string | null | undefined] values. *)
Definition same (a b : option string) : bool :=
  match a, b with
  | Some x, Some y => (x =? y)%string
  | None, None => true
  | _, _ => false
  end.

(** What a date field of a stored record holds: the [Date] the methods of
    [MemStorage] put there ([new Date()]), or the ISO string that
    [FileStorage.loadData] leaves in a record read back from the data file
    ([JSON.stringify] writes a date as text and [JSON.parse] revives none). *)
Inductive DateField :=
| Date (ms : Z)
| IsoText (text : string).

(** [d.getTime()]: a string has no such method, the call throws. *)
Definition getTime (d : DateField) : option Z :=
  match d with
  | Date ms => Some ms
  | IsoText _ => None
  end.

(** [a.getTime() - b.getTime()] *)
Definition timeDifference (a b : DateField) : option Z :=
  match getTime a, getTime b with
  | Some x, Some y => Some (x - y)
  | _, _ => None
  end.

(** [a < b] on date fields: two dates compare by their time, two strings as
    strings (ISO strings are ASCII: the order of their bytes is the order of
    their code units), and a date against an ISO string compares a number
    with [NaN], which is false. *)
Definition earlier (a b : DateField) : bool :=
  match a, b with
  | Date x, Date y => x <? y
  | IsoText s, IsoText t => String.ltb s t
  | _, _ => false
  end.

(** The date field holds a [Date]. *)
Definition isDate (d : DateField) : bool :=
  match d with
  | Date _ => true
  | IsoText _ => false
  end.

(** The time of a date field that holds a [Date]. *)
Definition millis (d : DateField) : Z :=
  match d with
  | Date ms => ms
  | IsoText _ => 0
  end.

(** ** Insertion-ordered maps with string keys *)

Module JsMap.
Section WithValue.
Context {V : Type}.

Definition t := list (string * V).

Fixpoint get (k : string) (m : t) : option V :=
  match m with
  | [] => None
  | (k', v) :: m' => if (k' =? k)%string then Some v else get k m'
  end.

(** [set] keeps the position of a key that is already present and appends a
    new key at the end. *)
Fixpoint set (k : string) (v : V) (m : t) : t :=
  match m with
  | [] => [(k, v)]
  | (k', v') :: m' =>
      if (k' =? k)%string then (k, v) :: m' else (k', v') :: set k v m'
  end.

Fixpoint delete (k : string) (m : t) : t :=
  match m with
  | [] => []
  | (k', v') :: m' =>
      if (k' =? k)%string then m' else (k', v') :: delete k m'
  end.

Definition values (m : t) : list V := map snd m.

End WithValue.
Arguments t V : clear implicits.
End JsMap.

(** [Array.prototype.sort(cmp)]: a stable sort, ended by the exception of a
    comparison ([None]).  For a comparator that is consistent where it
    returns (here: differences of times and of numbers) the result of a
    stable sort is unique, so insertion from the right gives the array the
    engine returns: [x] goes before the first [y] with [cmp x y <= 0].  The
    comparators of the repository throw only on the date fields of the two
    records compared, and only when the order of the two is decided by these
    fields.  Whatever its strategy, a sort cannot place a record among the
    records that tie with it on the other fields without comparing it with
    one of them; so the engine's sort throws on the same arrays as this
    one. *)
Section ArraySort.
Context {A : Type} (cmp : A -> A -> option Z).

Fixpoint sort_insert (x : A) (l : list A) : option (list A) :=
  match l with
  | [] => Some [x]
  | y :: l' =>
      match cmp x y with
      | None => None
      | Some c =>
          if c <=? 0 then Some (x :: y :: l')
          else option_map (cons y) (sort_insert x l')
      end
  end.

Fixpoint array_sort (l : list A) : option (list A) :=
  match l with
  | [] => Some []
  | x :: l' =>
      match array_sort l' with
      | None => None
      | Some sorted => sort_insert x sorted
      end
  end.
End ArraySort.

(** ** Records of shared/schema.ts *)

Module GameRoom.
Record t := mk {
  id : string;
  name : string;
  hostId : string;
  status : string;
  maxPlayers : Z;
  currentPlayers : Z;
  config : option string;
  questions : option string;
  currentQuestionIndex : Z;
  createdAt : DateField;
  startedAt : option DateField;
  finishedAt : option DateField
}.

(** [room.currentPlayers = n], the in-place update of the stored object. *)
Definition with_currentPlayers (n : Z) (r : t) : t :=
  mk (id r) (name r) (hostId r) (status r) (maxPlayers r) n (config r)
     (questions r) (currentQuestionIndex r) (createdAt r) (startedAt r)
     (finishedAt r).
End GameRoom.

Module GameParticipant.
Record t := mk {
  id : string;
  roomId : string;
  userId : string;
  score : Z;
  currentAnswers : option string;
  isReady : bool;
  joinedAt : DateField
}.
End GameParticipant.

(** ** MemStorage (the room and participant tables) *)

Record MemStorage := mkStorage {
  gameRooms : JsMap.t GameRoom.t;
  gameParticipants : JsMap.t GameParticipant.t
}.

Definition emptyStorage : MemStorage := mkStorage [] [].

(** The argument of [createGameRoom]: [InsertGameRoom & { hostId }]. *)
Record InsertGameRoom := mkInsertGameRoom {
  ins_name : string;
  ins_hostId : string;
  ins_maxPlayers : Z;
  ins_config : option string
}.

Definition createGameRoom (uuid : string) (now : Z) (room : InsertGameRoom)
    (st : MemStorage) : MemStorage * GameRoom.t :=
  let gameRoom :=
    GameRoom.mk uuid (ins_name room) (ins_hostId room) "waiting"
      (or_default (ins_maxPlayers room) 8) 1 (ins_config room)
      None 0 (Date now) None None in
  (mkStorage (JsMap.set uuid gameRoom (gameRooms st)) (gameParticipants st),
   gameRoom).

Definition getGameRoom (id : string) (st : MemStorage) : option GameRoom.t :=
  JsMap.get id (gameRooms st).

Definition isWaiting (room : GameRoom.t) : bool :=
  (GameRoom.status room =? "waiting")%string.

Definition newestFirst (a b : GameRoom.t) : option Z :=
  timeDifference (GameRoom.createdAt b) (GameRoom.createdAt a).

(** [None]: the comparator threw. *)
Definition getGameRooms (st : MemStorage) : option (list GameRoom.t) :=
  array_sort newestFirst (filter isWaiting (JsMap.values (gameRooms st))).

Definition addParticipant (uuid : string) (now : Z) (roomId userId : string)
    (st : MemStorage) : MemStorage * GameParticipant.t :=
  let gameParticipant :=
    GameParticipant.mk uuid roomId userId 0 None false (Date now) in
  let participants := JsMap.set uuid gameParticipant (gameParticipants st) in
  let rooms :=
    match JsMap.get roomId (gameRooms st) with
    | Some room =>
        JsMap.set roomId
          (GameRoom.with_currentPlayers
             (or_default (GameRoom.currentPlayers room) 0 + 1) room)
          (gameRooms st)
    | None => gameRooms st
    end in
  (mkStorage rooms participants, gameParticipant).

Definition isMembership (roomId userId : string) (p : GameParticipant.t) : bool :=
  (GameParticipant.roomId p =? roomId)%string
  && (GameParticipant.userId p =? userId)%string.

Definition removeParticipant (roomId userId : string) (st : MemStorage)
    : MemStorage :=
  match find (isMembership roomId userId) (JsMap.values (gameParticipants st)) with
  | Some participantToRemove =>
      let participants :=
        JsMap.delete (GameParticipant.id participantToRemove)
          (gameParticipants st) in
      let rooms :=
        match JsMap.get roomId (gameRooms st) with
        | Some room =>
            JsMap.set roomId
              (GameRoom.with_currentPlayers
                 (Z.max 0 (or_default (GameRoom.currentPlayers room) 0 - 1))
                 room)
              (gameRooms st)
        | None => gameRooms st
        end in
      mkStorage rooms participants
  | None => st
  end.

Definition joinGameRoom (uuid : string) (now : Z) (roomId userId : string)
    (st : MemStorage) : MemStorage :=
  fst (addParticipant uuid now roomId userId st).

Definition leaveGameRoom (roomId userId : string) (st : MemStorage)
    : MemStorage :=
  removeParticipant roomId userId st.

(** The participant rows of a room, and of one (room, user) pair. *)
Definition participantsOf (roomId : string) (st : MemStorage)
    : list GameParticipant.t :=
  filter (fun p => (GameParticipant.roomId p =? roomId)%string)
         (JsMap.values (gameParticipants st)).

Definition membershipsOf (roomId userId : string) (st : MemStorage)
    : list GameParticipant.t :=
  filter (isMembership roomId userId) (JsMap.values (gameParticipants st)).

(** ** The coordinator: registry, frames, handlers (server/routes.ts) *)

(** A connection handle: the identity of a [WebSocket] object. *)
Definition Ws := nat.

Module Player.
Record t := mk {
  ws : Ws;
  userId : string;
  roomId : option string
}.

(** [player.roomId = r], the in-place update of the registry entry. *)
Definition with_roomId (r : option string) (p : t) : t :=
  mk (ws p) (userId p) r.
End Player.

(** The state the handlers read and write: the repository, the registry
    [connectedPlayers] (keyed by userId) and the sockets whose [readyState]
    is not [OPEN]. *)
Record World := mkWorld {
  storage : MemStorage;
  connectedPlayers : JsMap.t Player.t;
  notOpen : list Ws
}.

(** The server right after a start with an empty repository. *)
Definition initWorld : World := mkWorld emptyStorage [] [].

(** Outbound frames, by their [type]. *)
Inductive OutMsg :=
| error (message : string)
| lobby_joined (userId : string)
| room_created (room : GameRoom.t)
| room_joined (room : option GameRoom.t)
| room_left
| player_joined (userId : string)
| player_left (userId : string)
| rooms_list (rooms : list GameRoom.t)
| signal (type : string).

Definition Sent := list (Ws * OutMsg).

(** Inbound frames after [JSON.parse] and the dispatch on [data.type].  A
    string field is [None] when it is absent or not a string; [maxPlayers] is
    [Number(data.maxPlayers)], [None] standing for [NaN]. *)
Inductive Frame :=
| unparsable
| untyped
| join_lobby (userId : option string)
| create_room (userId roomName : option string) (maxPlayers : option Z)
              (config : option string)
| join_room (roomId userId : option string)
| leave_room (userId : option string)
| get_rooms
| unknown (type : string).

(** What [randomUUID()] and [new Date()] return while one frame is handled. *)
Record Env := mkEnv {
  roomUuid : string;
  roomDate : Z;
  participantUuid : string;
  participantDate : Z
}.

Definition isOpen (w : World) (s : Ws) : bool :=
  negb (existsb (Nat.eqb s) (notOpen w)).

Definition broadcastToRoom (w : World) (roomId : string) (message : OutMsg)
    (excludeUserId : option string) : Sent :=
  flat_map
    (fun entry : string * Player.t =>
       let (userId, player) := entry in
       if same (Player.roomId player) (Some roomId)
          && negb (same (Some userId) excludeUserId)
          && isOpen w (Player.ws player)
       then [(Player.ws player, message)] else [])
    (connectedPlayers w).

Definition broadcastToLobby (w : World) (messageType : string) : Sent :=
  flat_map
    (fun entry : string * Player.t =>
       let (userId, player) := entry in
       if negb (truthy (Player.roomId player)) && isOpen w (Player.ws player)
       then [(Player.ws player, signal messageType)] else [])
    (connectedPlayers w).

(** [const player = connectedPlayers.get(userId); if (player) player.roomId = r] *)
Definition setPlayerRoom (userId : string) (r : option string)
    (players : JsMap.t Player.t) : JsMap.t Player.t :=
  match JsMap.get userId players with
  | Some player => JsMap.set userId (Player.with_roomId r player) players
  | None => players
  end.

Definition on_join_lobby (ws : Ws) (userId : option string) (w : World)
    : World * Sent :=
  match userId with
  | Some u =>
      if (u =? "")%string then (w, [(ws, error "Invalid userId")])
      else
        (mkWorld (storage w)
                 (JsMap.set u (Player.mk ws u None) (connectedPlayers w))
                 (notOpen w),
         [(ws, lobby_joined u)])
  | None => (w, [(ws, error "Invalid userId")])
  end.

(** The [room] sent in [room_created] is the object [createGameRoom] stored in
    the map: [joinGameRoom] updates that same object before the frame is
    serialised, so the record is read back from the store at send time. *)
Definition on_create_room (env : Env) (ws : Ws) (userId roomName : option string)
    (maxPlayers : option Z) (config : option string) (w : World)
    : World * Sent :=
  match userId with
  | Some u =>
      if (u =? "")%string then (w, [(ws, error "Failed to create room")])
      else
        let roomName :=
          match roomName with
          | Some s => substring 0 80 s
          | None => "Room"
          end in
        let (st1, created) :=
          createGameRoom (roomUuid env) (roomDate env)
            (mkInsertGameRoom roomName u
               (Z.max 2 (Z.min (number_or maxPlayers 8) 16)) config)
            (storage w) in
        let st2 :=
          joinGameRoom (participantUuid env) (participantDate env)
            (GameRoom.id created) u st1 in
        let players :=
          setPlayerRoom u (Some (GameRoom.id created)) (connectedPlayers w) in
        let w' := mkWorld st2 players (notOpen w) in
        let room :=
          match getGameRoom (GameRoom.id created) st2 with
          | Some stored => stored
          | None => created
          end in
        (w', (ws, room_created room) :: broadcastToLobby w' "room_list_updated")
  | None => (w, [(ws, error "Failed to create room")])
  end.

Definition on_join_room (env : Env) (ws : Ws) (roomId userId : option string)
    (w : World) : World * Sent :=
  match roomId, userId with
  | Some r, Some u =>
      let st := joinGameRoom (participantUuid env) (participantDate env) r u
                  (storage w) in
      let players := setPlayerRoom u (Some r) (connectedPlayers w) in
      let w' := mkWorld st players (notOpen w) in
      (w', (ws, room_joined (getGameRoom r st))
           :: broadcastToRoom w' r (player_joined u) (Some u)
           ++ broadcastToLobby w' "room_list_updated")
  | _, _ => (w, [(ws, error "Failed to join room")])
  end.

(** [connectedPlayers.get(data.userId)]: the keys of the registry are strings,
    so a [userId] that is not a string finds nothing. *)
Definition lookupPlayer (userId : option string) (w : World) : option Player.t :=
  match userId with
  | Some u => JsMap.get u (connectedPlayers w)
  | None => None
  end.

Definition on_leave_room (ws : Ws) (userId : option string) (w : World)
    : World * Sent :=
  match userId, lookupPlayer userId w with
  | Some u, Some player =>
      match Player.roomId player with
      | Some r =>
          if (r =? "")%string then (w, [])
          else
            let st := leaveGameRoom r u (storage w) in
            let w1 := mkWorld st (connectedPlayers w) (notOpen w) in
            let left := broadcastToRoom w1 r (player_left u) (Some u) in
            let players :=
              JsMap.set u (Player.with_roomId None player) (connectedPlayers w) in
            let w' := mkWorld st players (notOpen w) in
            (w', left ++ (ws, room_left)
                         :: broadcastToLobby w' "room_list_updated")
      | None => (w, [])
      end
  | _, _ => (w, [])
  end.

(** [try { rooms = await storage.getGameRooms(); send rooms_list }
    catch { send error }]: one frame to the requester either way. *)
Definition on_get_rooms (ws : Ws) (w : World) : World * Sent :=
  (w, [(ws, match getGameRooms (storage w) with
            | Some rooms => rooms_list rooms
            | None => error "Failed to get rooms"
            end)]).

(** [ws.on('message', ...)] *)
Definition on_message (env : Env) (ws : Ws) (f : Frame) (w : World)
    : World * Sent :=
  match f with
  | unparsable => (w, [(ws, error "Invalid message format")])
  | untyped => (w, [(ws, error "Invalid message type")])
  | join_lobby userId => on_join_lobby ws userId w
  | create_room userId roomName maxPlayers config =>
      on_create_room env ws userId roomName maxPlayers config w
  | join_room roomId userId => on_join_room env ws roomId userId w
  | leave_room userId => on_leave_room ws userId w
  | get_rooms => on_get_rooms ws w
  | unknown _ => (w, [(ws, error "Unknown event")])
  end.

(** [ws.on('close', ...)]: the first registry entry, in insertion order, that
    holds the closed socket is cleaned up and removed; the loop then stops. *)
Definition holds (ws : Ws) (entry : string * Player.t) : bool :=
  Nat.eqb (Player.ws (snd entry)) ws.

Definition on_close (ws : Ws) (w : World) : World * Sent :=
  match find (holds ws) (connectedPlayers w) with
  | Some (userId, player) =>
      let (st, left) :=
        match Player.roomId player with
        | Some r =>
            if (r =? "")%string then (storage w, [])
            else
              let st := leaveGameRoom r userId (storage w) in
              (st,
               broadcastToRoom (mkWorld st (connectedPlayers w) (notOpen w))
                 r (player_left userId) (Some userId))
        | None => (storage w, [])
        end in
      let w' :=
        mkWorld st (JsMap.delete userId (connectedPlayers w)) (notOpen w) in
      (w', left ++ broadcastToLobby w' "room_list_updated")
  | None => (w, [])
  end.

(** ** Transport events and reachable worlds *)

Inductive Event :=
| Message (env : Env) (ws : Ws) (f : Frame)
| Close (ws : Ws).

(** The transport of [ws] is no longer open when its close event fires. *)
Definition markClosed (ws : Ws) (w : World) : World :=
  mkWorld (storage w) (connectedPlayers w) (ws :: notOpen w).

Definition step (e : Event) (w : World) : World * Sent :=
  match e with
  | Message env ws f => on_message env ws f w
  | Close ws => on_close ws (markClosed ws w)
  end.

Definition run (events : list Event) (w : World) : World :=
  fold_left (fun acc e => fst (step e acc)) events w.

(** The server starts with an empty registry, all sockets open, and the
    repository [st0] (empty, or what [FileStorage] loaded from its file);
    it then handles transport events one at a time. *)
Definition started (st0 : MemStorage) : World := mkWorld st0 [] [].

Inductive reachable (st0 : MemStorage) : World -> Prop :=
| reachable_start : reachable st0 (started st0)
| reachable_step : forall w e,
    reachable st0 w -> reachable st0 (fst (step e w)).

(** ** Predicates used in the statements *)

(** Both fields hold a [Date], and [a] is not after [b]. *)
Definition notLater (a b : DateField) : Prop :=
  exists ta tb, a = Date ta /\ b = Date tb /\ ta <= tb.

(** [a] may stand before [b] in a newest-first listing. *)
Definition notOlder (a b : GameRoom.t) : Prop :=
  notLater (GameRoom.createdAt b) (GameRoom.createdAt a).

(** No room has a negative player count. *)
Definition roomsNonNegative (st : MemStorage) : Prop :=
  Forall (fun e => 0 <= GameRoom.currentPlayers (snd e)) (gameRooms st).

(** The registry holds at most one entry per userId. *)
Definition oneEntryPerUser (w : World) : Prop :=
  NoDup (map fst (connectedPlayers w)).

(** ** Sample sessions

    Two connections [connA] and [connB]; the environment values of three
    successive frames. *)

Definition connA : Ws := 1%nat.
Definition connB : Ws := 2%nat.

Definition env1 : Env := mkEnv "room-1" 1000 "part-1" 1001.
Definition env2 : Env := mkEnv "room-2" 2000 "part-2" 2001.
Definition env3 : Env := mkEnv "room-3" 3000 "part-3" 3001.

(** A registered as u1 and B as u2, both in the lobby. *)
Definition lobbyAB : World :=
  run [Message env1 connA (join_lobby (Some "u1"));
       Message env1 connB (join_lobby (Some "u2"))] initWorld.

(** A creates the room "Trivia Night". *)
Definition createTrivia (maxPlayers : option Z) : Event :=
  Message env1 connA
    (create_room (Some "u1") (Some "Trivia Night") maxPlayers None).

(** B asks to join A's room, as u2. *)
Definition joinTrivia (env : Env) : Event :=
  Message env connB (join_room (Some "room-1") (Some "u2")).

Definition triviaFor4 : World := fst (step (createTrivia (Some 4)) lobbyAB).
Definition triviaFor2 : World := fst (step (createTrivia (Some 2)) lobbyAB).

(** One connection that registered under two userIds and created a room
    under the second. *)
Definition twoNames : World :=
  run [Message env1 connA (join_lobby (Some "u0"));
       Message env1 connA (join_lobby (Some "u1"));
       createTrivia (Some 4)] initWorld.

(** ** More JavaScript values *)

(** [s || null] on a [string | null | undefined]. *)
Definition or_null (s : option string) : option string :=
  if truthy s then s else None.

(** [s || d] on a [string | null | undefined]. *)
Definition string_or (s : option string) (d : string) : string :=
  match s with
  | Some x => if (x =? "")%string then d else x
  | None => d
  end.

(** [n || null] on a [number | null | undefined]. *)
Definition number_or_null (n : option Z) : option Z :=
  match n with
  | Some x => if x =? 0 then None else Some x
  | None => None
  end.

(** [Array.prototype.slice(start, end)]: a negative index counts from the
    end, and both indices are clamped to the array. *)
Definition relative_index (len i : Z) : Z :=
  if i <? 0 then Z.max (len + i) 0 else Z.min i len.

Definition js_slice {A : Type} (start stop : Z) (l : list A) : list A :=
  let len := Z.of_nat (List.length l) in
  let k := relative_index len start in
  let final := relative_index len stop in
  firstn (Z.to_nat (final - k)) (skipn (Z.to_nat k) l).

(** ** The other records of shared/schema.ts *)

Module User.
Record t := mk {
  id : string;
  username : string;
  password : string;
  displayName : string;
  avatar : option string;
  gamesPlayed : option Z;
  totalScore : option Z;
  createdAt : DateField
}.

(** [user.totalScore = n], the in-place update of the stored object. *)
Definition with_totalScore (n : Z) (u : t) : t :=
  mk (id u) (username u) (password u) (displayName u) (avatar u)
     (gamesPlayed u) (Some n) (createdAt u).
End User.

Record InsertUser := mkInsertUser {
  new_username : string;
  new_password : string;
  new_displayName : string;
  new_avatar : option string
}.

Module GameResult.
Record t := mk {
  id : string;
  roomId : string;
  userId : string;
  questionIndex : Z;
  selectedAnswer : option string;
  isCorrect : bool;
  timeToAnswer : option Z;
  createdAt : DateField
}.
End GameResult.

Record InsertGameResult := mkInsertGameResult {
  res_roomId : string;
  res_userId : string;
  res_questionIndex : Z;
  res_selectedAnswer : option string;
  res_isCorrect : option bool;
  res_timeToAnswer : option Z
}.

Module SoloResult.
Record t := mk {
  id : string;
  userId : string;
  score : Z;
  correctAnswers : Z;
  totalQuestions : Z;
  averageTime : option Z;
  difficulty : string;
  category : option string;
  config : option string;
  createdAt : DateField
}.
End SoloResult.

Record InsertSoloResult := mkInsertSoloResult {
  solo_userId : string;
  solo_score : option Z;
  solo_correctAnswers : option Z;
  solo_totalQuestions : Z;
  solo_averageTime : option Z;
  solo_difficulty : string;
  solo_category : option string;
  solo_config : option string
}.

(** [Partial<GameRoom>]: the fields an update carries. *)
Module GameRoomUpdates.
Record t := mk {
  id : option string;
  name : option string;
  hostId : option string;
  status : option string;
  maxPlayers : option Z;
  currentPlayers : option Z;
  config : option (option string);
  questions : option (option string);
  currentQuestionIndex : option Z;
  createdAt : option DateField;
  startedAt : option (option DateField);
  finishedAt : option (option DateField)
}.

Definition none : t :=
  mk None None None None None None None None None None None None.
End GameRoomUpdates.

(** [Partial<GameParticipant>] *)
Module GameParticipantUpdates.
Record t := mk {
  id : option string;
  roomId : option string;
  userId : option string;
  score : option Z;
  currentAnswers : option (option string);
  isReady : option bool;
  joinedAt : option DateField
}.

Definition none : t := mk None None None None None None None.
End GameParticipantUpdates.

(** One field of [{ ...object, ...updates }]. *)
Definition spread {A : Type} (current : A) (update : option A) : A :=
  match update with
  | Some x => x
  | None => current
  end.

(** ** MemStorage: rooms and participants, continued *)

Definition updateGameRoom (id : string) (updates : GameRoomUpdates.t)
    (st : MemStorage) : MemStorage * option GameRoom.t :=
  match JsMap.get id (gameRooms st) with
  | None => (st, None)
  | Some room =>
      let updatedRoom :=
        GameRoom.mk
          (spread (GameRoom.id room) (GameRoomUpdates.id updates))
          (spread (GameRoom.name room) (GameRoomUpdates.name updates))
          (spread (GameRoom.hostId room) (GameRoomUpdates.hostId updates))
          (spread (GameRoom.status room) (GameRoomUpdates.status updates))
          (spread (GameRoom.maxPlayers room) (GameRoomUpdates.maxPlayers updates))
          (spread (GameRoom.currentPlayers room)
                  (GameRoomUpdates.currentPlayers updates))
          (spread (GameRoom.config room) (GameRoomUpdates.config updates))
          (spread (GameRoom.questions room) (GameRoomUpdates.questions updates))
          (spread (GameRoom.currentQuestionIndex room)
                  (GameRoomUpdates.currentQuestionIndex updates))
          (spread (GameRoom.createdAt room) (GameRoomUpdates.createdAt updates))
          (spread (GameRoom.startedAt room) (GameRoomUpdates.startedAt updates))
          (spread (GameRoom.finishedAt room) (GameRoomUpdates.finishedAt updates))
      in
      (mkStorage (JsMap.set id updatedRoom (gameRooms st)) (gameParticipants st),
       Some updatedRoom)
  end.

Definition oldestFirst (a b : GameParticipant.t) : option Z :=
  timeDifference (GameParticipant.joinedAt a) (GameParticipant.joinedAt b).

(** [None]: the comparator threw. *)
Definition getParticipants (roomId : string) (st : MemStorage)
    : option (list GameParticipant.t) :=
  array_sort oldestFirst
    (filter (fun participant =>
               (GameParticipant.roomId participant =? roomId)%string)
            (JsMap.values (gameParticipants st))).

Definition updateParticipant (id : string) (updates : GameParticipantUpdates.t)
    (st : MemStorage) : MemStorage * option GameParticipant.t :=
  match JsMap.get id (gameParticipants st) with
  | None => (st, None)
  | Some participant =>
      let updatedParticipant :=
        GameParticipant.mk
          (spread (GameParticipant.id participant)
                  (GameParticipantUpdates.id updates))
          (spread (GameParticipant.roomId participant)
                  (GameParticipantUpdates.roomId updates))
          (spread (GameParticipant.userId participant)
                  (GameParticipantUpdates.userId updates))
          (spread (GameParticipant.score participant)
                  (GameParticipantUpdates.score updates))
          (spread (GameParticipant.currentAnswers participant)
                  (GameParticipantUpdates.currentAnswers updates))
          (spread (GameParticipant.isReady participant)
                  (GameParticipantUpdates.isReady updates))
          (spread (GameParticipant.joinedAt participant)
                  (GameParticipantUpdates.joinedAt updates))
      in
      (mkStorage (gameRooms st)
                 (JsMap.set id updatedParticipant (gameParticipants st)),
       Some updatedParticipant)
  end.

(** ** MemStorage: the tables of users, game results and solo results

    The methods on these three maps never touch the rooms and participants,
    and the methods above never touch these maps; they are kept in a record
    of their own. *)

Record MemTables := mkTables {
  users : JsMap.t User.t;
  gameResults : JsMap.t GameResult.t;
  soloResults : JsMap.t SoloResult.t
}.

Definition emptyTables : MemTables := mkTables [] [] [].

Definition getUser (id : string) (t : MemTables) : option User.t :=
  JsMap.get id (users t).

Definition getUserByUsername (username : string) (t : MemTables)
    : option User.t :=
  find (fun user => (User.username user =? username)%string)
       (JsMap.values (users t)).

Definition createUser (uuid : string) (now : Z) (insertUser : InsertUser)
    (t : MemTables) : MemTables * User.t :=
  let user :=
    User.mk uuid (new_username insertUser) (new_password insertUser)
      (new_displayName insertUser)
      (Some (string_or (new_avatar insertUser) "👤"))
      (Some 0) (Some 0) (Date now) in
  (mkTables (JsMap.set uuid user (users t)) (gameResults t) (soloResults t),
   user).

Definition updateUserScore (userId : string) (newScore : Z) (t : MemTables)
    : MemTables :=
  match JsMap.get userId (users t) with
  | Some user =>
      mkTables (JsMap.set userId (User.with_totalScore newScore user) (users t))
               (gameResults t) (soloResults t)
  | None => t
  end.

Definition addGameResult (uuid : string) (now : Z) (result : InsertGameResult)
    (t : MemTables) : MemTables * GameResult.t :=
  let gameResult :=
    GameResult.mk uuid (res_roomId result) (res_userId result)
      (res_questionIndex result) (or_null (res_selectedAnswer result))
      (match res_isCorrect result with Some b => b | None => false end)
      (number_or_null (res_timeToAnswer result)) (Date now) in
  (mkTables (users t) (JsMap.set uuid gameResult (gameResults t))
            (soloResults t),
   gameResult).

(** [a.questionIndex - b.questionIndex || a.createdAt.getTime() -
    b.createdAt.getTime()]: the times are read only when the indices tie. *)
Definition byQuestionThenTime (a b : GameResult.t) : option Z :=
  let byIndex := GameResult.questionIndex a - GameResult.questionIndex b in
  if byIndex =? 0
  then timeDifference (GameResult.createdAt a) (GameResult.createdAt b)
  else Some byIndex.

(** [None]: the comparator threw. *)
Definition getGameResults (roomId : string) (t : MemTables)
    : option (list GameResult.t) :=
  array_sort byQuestionThenTime
    (filter (fun result => (GameResult.roomId result =? roomId)%string)
            (JsMap.values (gameResults t))).

Definition addSoloResult (uuid : string) (now : Z) (result : InsertSoloResult)
    (t : MemTables) : MemTables * SoloResult.t :=
  let soloResult :=
    SoloResult.mk uuid (solo_userId result)
      (number_or (solo_score result) 0)
      (number_or (solo_correctAnswers result) 0)
      (solo_totalQuestions result)
      (number_or_null (solo_averageTime result))
      (solo_difficulty result)
      (or_null (solo_category result))
      (or_null (solo_config result)) (Date now) in
  (mkTables (users t) (gameResults t)
            (JsMap.set uuid soloResult (soloResults t)),
   soloResult).

(** A value of [userBestScores]. *)
Record Best := mkBest {
  best_result : SoloResult.t;
  best_user : User.t
}.

(** The test that lets [result] replace the entry [existing] of its user. *)
Definition beats (result existing : SoloResult.t) : bool :=
  (SoloResult.score existing <? SoloResult.score result)
  || ((SoloResult.score result =? SoloResult.score existing)
      && earlier (SoloResult.createdAt result) (SoloResult.createdAt existing)).

(** The body of the [forEach] over the solo results. *)
Definition considerResult (t : MemTables) (userBestScores : JsMap.t Best)
    (result : SoloResult.t) : JsMap.t Best :=
  match JsMap.get (SoloResult.userId result) (users t) with
  | None => userBestScores
  | Some user =>
      match JsMap.get (SoloResult.userId result) userBestScores with
      | None =>
          JsMap.set (SoloResult.userId result) (mkBest result user)
                    userBestScores
      | Some existing =>
          if beats result (best_result existing)
          then JsMap.set (SoloResult.userId result) (mkBest result user)
                         userBestScores
          else userBestScores
      end
  end.

Definition userBestScores (t : MemTables) : JsMap.t Best :=
  fold_left (considerResult t) (JsMap.values (soloResults t)) [].

Module LeaderboardEntry.
Record t := mk {
  id : string;
  username : string;
  displayName : string;
  avatar : string;
  score : Z;
  correctAnswers : Z;
  totalQuestions : Z;
  averageTime : Z;
  difficulty : string;
  category : string;
  timestamp : DateField
}.
End LeaderboardEntry.

Definition toEntry (b : Best) : LeaderboardEntry.t :=
  let result := best_result b in
  let user := best_user b in
  LeaderboardEntry.mk (User.id user) (User.username user)
    (User.displayName user) (string_or (User.avatar user) "👤")
    (SoloResult.score result) (SoloResult.correctAnswers result)
    (SoloResult.totalQuestions result)
    (number_or (SoloResult.averageTime result) 0)
    (SoloResult.difficulty result)
    (string_or (SoloResult.category result) "Mixed")
    (SoloResult.createdAt result).

(** Score descending, then timestamp ascending; the times are read only
    when the scores tie. *)
Definition byScoreThenTime (a b : LeaderboardEntry.t) : option Z :=
  if negb (LeaderboardEntry.score a =? LeaderboardEntry.score b)
  then Some (LeaderboardEntry.score b - LeaderboardEntry.score a)
  else timeDifference (LeaderboardEntry.timestamp a)
                      (LeaderboardEntry.timestamp b).

(** The whole board, before [slice]; [None]: the comparator threw. *)
Definition soloLeaderboard (t : MemTables) : option (list LeaderboardEntry.t) :=
  array_sort byScoreThenTime (map toEntry (JsMap.values (userBestScores t))).

Definition getSoloLeaderboard (limit offset : Z) (t : MemTables)
    : option (list LeaderboardEntry.t) :=
  option_map (js_slice offset (offset + limit)) (soloLeaderboard t).

(** ** FileStorage: the data file

    [FileStorage], the storage the server runs on, is [MemStorage] with
    [saveData()] at the end of [createUser], [updateUserScore],
    [createGameRoom], [addParticipant], [removeParticipant], [addGameResult]
    and [addSoloResult], and with [loadData()] in its constructor.
    [saveData] writes the entries of the five maps with [JSON.stringify],
    which writes a [Date] as the text of its [toISOString()]; [loadData]
    builds the maps from the [JSON.parse] of the file, which revives no
    date.  Every other field (string, integer, boolean, null) comes back as
    it was written, and the entries come back in their order. *)
Section FileStorage.
Variable toISOString : Z -> string.

(** [JSON.parse(JSON.stringify(d))] on a date field. *)
Definition reloadDate (d : DateField) : DateField :=
  match d with
  | Date ms => IsoText (toISOString ms)
  | IsoText text => IsoText text
  end.

Definition reloadGameRoom (room : GameRoom.t) : GameRoom.t :=
  GameRoom.mk (GameRoom.id room) (GameRoom.name room) (GameRoom.hostId room)
    (GameRoom.status room) (GameRoom.maxPlayers room)
    (GameRoom.currentPlayers room) (GameRoom.config room)
    (GameRoom.questions room) (GameRoom.currentQuestionIndex room)
    (reloadDate (GameRoom.createdAt room))
    (option_map reloadDate (GameRoom.startedAt room))
    (option_map reloadDate (GameRoom.finishedAt room)).

Definition reloadParticipant (row : GameParticipant.t) : GameParticipant.t :=
  GameParticipant.mk (GameParticipant.id row) (GameParticipant.roomId row)
    (GameParticipant.userId row) (GameParticipant.score row)
    (GameParticipant.currentAnswers row) (GameParticipant.isReady row)
    (reloadDate (GameParticipant.joinedAt row)).

(** [new Map(JSON.parse(JSON.stringify(Array.from(m.entries()))))] *)
Definition reloadMap {V : Type} (reloadValue : V -> V) (m : JsMap.t V)
    : JsMap.t V :=
  map (fun entry => (fst entry, reloadValue (snd entry))) m.

(** The rooms and participants of a server that starts on the file its
    predecessor wrote when its rooms and participants were [st]. *)
Definition reloadStorage (st : MemStorage) : MemStorage :=
  mkStorage (reloadMap reloadGameRoom (gameRooms st))
            (reloadMap reloadParticipant (gameParticipants st)).
End FileStorage.

(** ** HTTP routes of [registerRoutes]

    A handler maps the session's userId, the request and the tables to the
    new tables and the JSON reply.  The rate limiters of express-rate-limit
    stand before some handlers; the model is of a request they let through. *)

Inductive Reply :=
| json_error (status : Z) (error : string)
| json_score (newScore : Z)
| json_saved (id : string)
| json_leaderboard (rows : list LeaderboardEntry.t).

(** [requireAuth]: [req.session?.userId] must be truthy. *)
Definition requireAuth (session : option string) : bool := truthy session.

(** The body of POST /api/users/update-score as the zod schema sees it:
    [body_userId] is [None] when the field is not a string,
    [body_pointsChange] when it is not an integer number, [body_isSoloMode]
    when it is present and not a boolean ([Some None]: the field is absent). *)
Record ScoreBody := mkScoreBody {
  body_userId : option string;
  body_pointsChange : option Z;
  body_isSoloMode : option (option bool)
}.

Definition parseScoreBody (body : ScoreBody) : option (string * Z * option bool) :=
  match body_userId body, body_pointsChange body, body_isSoloMode body with
  | Some userId, Some pointsChange, Some isSoloMode =>
      if (-1000 <=? pointsChange) && (pointsChange <=? 1000)
      then Some (userId, pointsChange, isSoloMode)
      else None
  | _, _, _ => None
  end.

Definition post_update_score (session : option string) (body : ScoreBody)
    (t : MemTables) : MemTables * Reply :=
  if negb (requireAuth session) then (t, json_error 401 "Unauthorized")
  else
    match parseScoreBody body with
    | None => (t, json_error 400 "Invalid input")
    | Some (userId, pointsChange, isSoloMode) =>
        if negb (same session (Some userId)) then (t, json_error 403 "Forbidden")
        else
          match getUser userId t with
          | None => (t, json_error 404 "User not found")
          | Some user =>
              let currentScore := number_or (User.totalScore user) 0 in
              let newScore :=
                match isSoloMode with
                | Some true => currentScore + Z.max 0 pointsChange
                | _ => Z.max 0 (currentScore + pointsChange)
                end in
              (updateUserScore userId newScore t, json_score newScore)
          end
    end.

(** The body of POST /api/solo/save.  [sb_averageTime] is [None] when the
    field is present but neither an integer nor null, [Some None] when it is
    absent or null.  The length of [difficulty] is counted on the string as
    held here, which is the JavaScript length for ASCII text. *)
Record SoloBody := mkSoloBody {
  sb_userId : option string;
  sb_score : option Z;
  sb_correctAnswers : option Z;
  sb_totalQuestions : option Z;
  sb_averageTime : option (option Z);
  sb_difficulty : option string;
  sb_category : option string;
  sb_config : option string
}.

Definition within (lo hi x : Z) : bool := (lo <=? x) && (x <=? hi).

Definition parseSoloBody (body : SoloBody) : option InsertSoloResult :=
  match sb_userId body, sb_score body, sb_correctAnswers body,
        sb_totalQuestions body, sb_averageTime body, sb_difficulty body with
  | Some userId, Some score, Some correctAnswers, Some totalQuestions,
    Some averageTime, Some difficulty =>
      if within 0 1000 score && within 0 1000 correctAnswers
         && within 1 1000 totalQuestions
         && match averageTime with
            | Some ms => within 0 3600000 ms
            | None => true
            end
         && (1 <=? String.length difficulty)%nat
         && (String.length difficulty <=? 20)%nat
      then Some (mkInsertSoloResult userId (Some score) (Some correctAnswers)
                   totalQuestions averageTime difficulty (sb_category body)
                   (sb_config body))
      else None
  | _, _, _, _, _, _ => None
  end.

Definition post_solo_save (uuid : string) (now : Z) (session : option string)
    (body : SoloBody) (t : MemTables) : MemTables * Reply :=
  if negb (requireAuth session) then (t, json_error 401 "Unauthorized")
  else
    match parseSoloBody body with
    | None => (t, json_error 400 "Invalid input")
    | Some parsed =>
        if negb (same session (Some (solo_userId parsed)))
        then (t, json_error 403 "Forbidden")
        else if (solo_userId parsed =? "")%string
                || (solo_totalQuestions parsed =? 0)
        then (t, json_error 400 "Missing required solo result data")
        else
          let (t', soloResult) :=
            addSoloResult uuid now
              (mkInsertSoloResult (solo_userId parsed) (solo_score parsed)
                 (solo_correctAnswers parsed) (solo_totalQuestions parsed)
                 (solo_averageTime parsed)
                 (string_or (Some (solo_difficulty parsed)) "medium")
                 (solo_category parsed) (solo_config parsed)) t in
          (t', json_saved (SoloResult.id soloResult))
    end.

(** A query parameter under [z.coerce.number().int()]: absent, or the integer
    [Number(value)], or a value that is not coerced to an integer. *)
Inductive QueryNumber :=
| q_absent
| q_integer (n : Z)
| q_other.

Definition parseQueryNumber (lo hi default : Z) (q : QueryNumber) : option Z :=
  match q with
  | q_absent => Some default
  | q_integer n => if within lo hi n then Some n else None
  | q_other => None
  end.

(** The route's [try] covers the parse and the call of [getSoloLeaderboard];
    its [catch] answers 500 for an exception of either. *)
Definition get_leaderboard_solo (limit offset : QueryNumber) (t : MemTables)
    : Reply :=
  match parseQueryNumber 1 100 50 limit, parseQueryNumber 0 5000 0 offset with
  | Some limit, Some offset =>
      match getSoloLeaderboard limit offset t with
      | Some rows => json_leaderboard rows
      | None => json_error 500 "Failed to get leaderboard"
      end
  | _, _ => json_error 500 "Failed to get leaderboard"
  end.

(** ** Predicates used in the further statements *)

(** The stored objects carry the key they are stored under. *)
Definition roomsKeyed (st : MemStorage) : Prop :=
  forall k room, In (k, room) (gameRooms st) -> GameRoom.id room = k.

Definition participantsKeyed (st : MemStorage) : Prop :=
  forall k row, In (k, row) (gameParticipants st) -> GameParticipant.id row = k.

Definition usersKeyed (t : MemTables) : Prop :=
  forall k user, In (k, user) (users t) -> User.id user = k.

(** Every room counts one player more than it has participant rows. *)
Definition countsOneAboveRows (st : MemStorage) : Prop :=
  forall k room, In (k, room) (gameRooms st) ->
    GameRoom.currentPlayers room
    = Z.of_nat (List.length (participantsOf k st)) + 1.

(** The bookkeeping the repository keeps from an empty start as long as the
    generated ids are new. *)
Definition consistent (st : MemStorage) : Prop :=
  NoDup (map fst (gameRooms st))
  /\ NoDup (map fst (gameParticipants st))
  /\ participantsKeyed st
  /\ countsOneAboveRows st.

(** The ids generated while [f] is handled are new: the room id names no
    stored room and no participant row, the participant id no stored row. *)
Definition freshIds (env : Env) (f : Frame) (st : MemStorage) : Prop :=
  match f with
  | create_room _ _ _ _ =>
      JsMap.get (roomUuid env) (gameRooms st) = None
      /\ participantsOf (roomUuid env) st = []
      /\ JsMap.get (participantUuid env) (gameParticipants st) = None
  | join_room _ _ =>
      JsMap.get (participantUuid env) (gameParticipants st) = None
  | _ => True
  end.

Definition freshEvent (e : Event) (w : World) : Prop :=
  match e with
  | Message env _ f => freshIds env f (storage w)
  | Close _ => True
  end.

(** What the coordinator never changes in a stored room. *)
Definition sameRoomButCount (a b : GameRoom.t) : Prop :=
  GameRoom.with_currentPlayers 0 a = GameRoom.with_currentPlayers 0 b.


(** Frames that are fanned out, as opposed to replies to the requester. *)
Definition isBroadcast (m : OutMsg) : bool :=
  match m with
  | player_joined _ | player_left _ | signal _ => true
  | _ => false
  end.

(** What holds of every room the coordinator creates. *)
Definition coordinatorRoom (k : string) (room : GameRoom.t) : Prop :=
  GameRoom.id room = k
  /\ GameRoom.status room = "waiting"
  /\ 2 <= GameRoom.maxPlayers room <= 16
  /\ GameRoom.hostId room <> "".

(** The generated ids are new at every event of a run. *)
Fixpoint freshRun (events : list Event) (w : World) : Prop :=
  match events with
  | [] => True
  | e :: rest => freshEvent e w /\ freshRun rest (fst (step e w))
  end.

(** What holds of every registry entry. *)
Definition registeredPlayer (k : string) (player : Player.t) : Prop :=
  Player.userId player = k /\ k <> "".

(** [b] is at least as good a solo result as [r]: a higher score, or the same
    score reached no later. *)
Definition atLeastAsGood (b r : SoloResult.t) : Prop :=
  SoloResult.score r < SoloResult.score b
  \/ (SoloResult.score r = SoloResult.score b
      /\ millis (SoloResult.createdAt b) <= millis (SoloResult.createdAt r)).

(** What [userBestScores] holds once the results [seen] have been visited. *)
Definition bestOf (t : MemTables) (seen : list SoloResult.t)
    (best : JsMap.t Best) : Prop :=
  NoDup (map fst best)
  /\ (forall k b, In (k, b) best ->
        In (best_result b) seen
        /\ SoloResult.userId (best_result b) = k
        /\ JsMap.get k (users t) = Some (best_user b))
  /\ (forall r user, In r seen ->
        JsMap.get (SoloResult.userId r) (users t) = Some user ->
        exists b, JsMap.get (SoloResult.userId r) best = Some b
                  /\ atLeastAsGood (best_result b) r).

(** The order of the leaderboard: a higher score, or the same score and both
    rows dated, [a] not after [b]. *)
Definition ranksBefore (a b : LeaderboardEntry.t) : Prop :=
  LeaderboardEntry.score b < LeaderboardEntry.score a
  \/ (LeaderboardEntry.score a = LeaderboardEntry.score b
      /\ notLater (LeaderboardEntry.timestamp a)
                  (LeaderboardEntry.timestamp b)).

(** Every stored solo result holds a [Date]: none was read back from the
    data file. *)
Definition datedResults (t : MemTables) : Prop :=
  forall k result, In (k, result) (soloResults t) ->
                   isDate (SoloResult.createdAt result) = true.

(** ** Sample tables: two users and four solo results, one of them of a user
    without an account. *)

Definition sampleUsers : MemTables :=
  fst (createUser "id-2" 20 (mkInsertUser "bob" "hash-2" "Bob" None)
         (fst (createUser "id-1" 10 (mkInsertUser "ada" "hash-1" "Ada" None)
                 emptyTables))).

Definition saveSample (uuid : string) (now : Z) (userId : string) (score : Z)
    (t : MemTables) : MemTables :=
  fst (addSoloResult uuid now
         (mkInsertSoloResult userId (Some score) (Some 1) 10 None "easy"
            None None) t).

Definition sampleTables : MemTables :=
  saveSample "s4" 400 "ghost" 900
    (saveSample "s3" 300 "id-1" 70
       (saveSample "s2" 200 "id-2" 50
          (saveSample "s1" 100 "id-1" 70 sampleUsers))).

(** A and B have created one room each, and the server is started again on
    the data file: the registry is empty and the repository is the reloaded
    one. *)
Definition twoRooms : World :=
  fst (step (Message env2 connB (create_room (Some "u2") None None None))
         triviaFor4).

Definition restarted (toISOString : Z -> string) : World :=
  started (reloadStorage toISOString (storage twoRooms)).

(** [a] may stand before [b] in a listing of results: an earlier question,
    or the same question and both answers dated, [a] not after [b]. *)
Definition byQuestionThenDate (a b : GameResult.t) : Prop :=
  GameResult.questionIndex a < GameResult.questionIndex b
  \/ (GameResult.questionIndex a = GameResult.questionIndex b
      /\ notLater (GameResult.createdAt a) (GameResult.createdAt b)).

(** Two answers given in room-1, the later one to the earlier question. *)
Definition sampleAnswers : MemTables :=
  fst (addGameResult "g2" 700
         (mkInsertGameResult "room-1" "u2" 0 (Some "b") (Some false) (Some 4))
         (fst (addGameResult "g1" 600
                 (mkInsertGameResult "room-1" "u1" 1 (Some "a") (Some true)
                    (Some 3))
                 emptyTables))).

(** Every stored room, with the id it is stored under, satisfies [P]. *)
Definition roomsAll (P : string -> GameRoom.t -> Prop) (st : MemStorage) : Prop :=
  forall k room, In (k, room) (gameRooms st) -> P k room.

(** The socket a registry entry binds its userId to. *)
Definition binding (entry : string * Player.t) : string * Ws :=
  (fst entry, Player.ws (snd entry)).

(** ** Facts about insertion-ordered maps *)

Section JsMapFacts.
Context {V : Type}.
Implicit Types (m : JsMap.t V) (k : string) (v : V).

Lemma get_set_same k v m : JsMap.get k (JsMap.set k v m) = Some v.
Proof.
  induction m as [|[k' v'] m IH]; simpl.
  - now rewrite String.eqb_refl.
  - destruct (k' =? k)%string eqn:E; simpl.
    + now rewrite String.eqb_refl.
    + now rewrite E.
Qed.

Lemma get_set_other k k' v m :
  k' <> k -> JsMap.get k' (JsMap.set k v m) = JsMap.get k' m.
Proof.
  intros Hne. induction m as [|[k0 v0] m IH]; simpl.
  - destruct (k =? k')%string eqn:E; [|reflexivity].
    apply String.eqb_eq in E. congruence.
  - destruct (k0 =? k)%string eqn:E; simpl.
    + apply String.eqb_eq in E. subst k0.
      destruct (k =? k')%string eqn:E'; [|reflexivity].
      apply String.eqb_eq in E'. congruence.
    + now rewrite IH.
Qed.

Lemma get_In k v m : JsMap.get k m = Some v -> In (k, v) m.
Proof.
  induction m as [|[k' v'] m IH]; simpl; [discriminate|].
  destruct (k' =? k)%string eqn:E.
  - apply String.eqb_eq in E. intros [= ->]. left. now subst.
  - intros H. right. now apply IH.
Qed.

Lemma set_fresh k v m :
  JsMap.get k m = None -> JsMap.set k v m = m ++ [(k, v)].
Proof.
  induction m as [|[k' v'] m IH]; simpl; [reflexivity|].
  destruct (k' =? k)%string; [discriminate|].
  intros H. now rewrite IH.
Qed.

Lemma set_keys_present k v v0 m :
  JsMap.get k m = Some v0 -> map fst (JsMap.set k v m) = map fst m.
Proof.
  induction m as [|[k' v'] m IH]; simpl; [discriminate|].
  destruct (k' =? k)%string eqn:E; simpl.
  - apply String.eqb_eq in E. now subst.
  - intros H. now rewrite IH.
Qed.


Lemma In_set_inv k v m e :
  In e (JsMap.set k v m) -> e = (k, v) \/ In e m.
Proof.
  induction m as [|[k0 v0] m IH]; simpl.
  - intros [H|[]]. now left.
  - destruct (k0 =? k)%string; simpl.
    + intros [H|H]; [now left | right; now right].
    + intros [H|H]; [right; now left|].
      destruct (IH H) as [H'|H']; [now left | right; now right].
Qed.

Lemma In_delete k m e : In e (JsMap.delete k m) -> In e m.
Proof.
  induction m as [|[k0 v0] m IH]; simpl; [tauto|].
  destruct (k0 =? k)%string; simpl; [now right|].
  intros [H|H]; [now left | right; auto].
Qed.

Lemma In_key_set k v m x :
  In x (map fst (JsMap.set k v m)) -> x = k \/ In x (map fst m).
Proof.
  rewrite in_map_iff. intros [[k0 v0] [<- Hin]].
  destruct (In_set_inv _ _ _ _ Hin) as [[= -> ->]|H]; [now left|].
  right. now apply (in_map fst) in H.
Qed.

Lemma NoDup_keys_set k v m :
  NoDup (map fst m) -> NoDup (map fst (JsMap.set k v m)).
Proof.
  induction m as [|[k0 v0] m IH]; simpl; intros Hnd.
  - constructor; [simpl; tauto | constructor].
  - inversion Hnd as [|? ? Hnotin Hnd']; subst.
    destruct (k0 =? k)%string eqn:E; simpl.
    + apply String.eqb_eq in E. subst k0. now constructor.
    + constructor; [|now apply IH].
      intros Hin. apply In_key_set in Hin as [->|Hin]; [|contradiction].
      now rewrite String.eqb_refl in E.
Qed.

Lemma NoDup_keys_delete k m :
  NoDup (map fst m) -> NoDup (map fst (JsMap.delete k m)).
Proof.
  induction m as [|[k0 v0] m IH]; simpl; intros Hnd; [constructor|].
  inversion Hnd as [|? ? Hnotin Hnd']; subst.
  destruct (k0 =? k)%string; simpl; [assumption|].
  constructor; [|now apply IH].
  intros Hin. apply Hnotin.
  rewrite in_map_iff in *. destruct Hin as [e [He Hin]].
  exists e. split; [assumption | now apply In_delete in Hin].
Qed.

Lemma NoDup_keys_get k v m :
  NoDup (map fst m) -> In (k, v) m -> JsMap.get k m = Some v.
Proof.
  induction m as [|[k0 v0] m IH]; simpl; [tauto|].
  intros Hnd [H|H]; inversion Hnd as [|? ? Hnotin Hnd']; subst.
  - injection H as -> ->. now rewrite String.eqb_refl.
  - destruct (k0 =? k)%string eqn:E; [|now apply IH].
    apply String.eqb_eq in E. subst k0.
    exfalso. apply Hnotin. now apply (in_map fst) in H.
Qed.

Lemma Forall_set (P : string * V -> Prop) k v m :
  P (k, v) -> Forall P m -> Forall P (JsMap.set k v m).
Proof.
  intros Hp Hm. apply Forall_forall. intros e He.
  apply In_set_inv in He as [->|He]; [assumption|].
  now apply (proj1 (Forall_forall P m) Hm).
Qed.
End JsMapFacts.

(** ** Facts about the sort *)

Lemma timeDifference_dates a b :
  isDate a = true -> isDate b = true ->
  timeDifference a b = Some (millis a - millis b).
Proof. destruct a, b; cbn; intros; congruence. Qed.

Lemma timeDifference_throws a b :
  timeDifference a b = None <-> isDate a && isDate b = false.
Proof. destruct a, b; cbn; split; intros H; congruence. Qed.

Section ArraySortFacts.
Context {A : Type} (cmp : A -> A -> option Z).

Lemma sort_insert_perm x l s :
  sort_insert cmp x l = Some s -> Permutation s (x :: l).
Proof.
  revert s. induction l as [|y l IH]; simpl; intros s H.
  - injection H as <-. reflexivity.
  - destruct (cmp x y) as [c|]; [|discriminate].
    destruct (c <=? 0).
    + injection H as <-. reflexivity.
    + destruct (sort_insert cmp x l) as [s'|]; [|discriminate].
      injection H as <-. rewrite (IH s' eq_refl). apply perm_swap.
Qed.

Lemma array_sort_perm l s : array_sort cmp l = Some s -> Permutation s l.
Proof.
  revert s. induction l as [|x l IH]; simpl; intros s H.
  - injection H as <-. reflexivity.
  - destruct (array_sort cmp l) as [s'|]; [|discriminate].
    rewrite (sort_insert_perm _ _ _ H). constructor. now apply IH.
Qed.

(** The sort returns when no comparison of two of the records throws. *)
Lemma sort_insert_defined x l :
  (forall y, In y l -> cmp x y <> None) ->
  exists s, sort_insert cmp x l = Some s.
Proof.
  induction l as [|y l IH]; simpl; intros H; [now exists [x]|].
  destruct (cmp x y) as [c|] eqn:E;
    [|now destruct (H y (or_introl eq_refl))].
  destruct (c <=? 0); [now eexists|].
  destruct IH as [s ->]; [intros z Hz; apply H; now right|].
  now eexists.
Qed.

Lemma array_sort_defined l :
  (forall x y, In x l -> In y l -> cmp x y <> None) ->
  exists s, array_sort cmp l = Some s.
Proof.
  induction l as [|x l IH]; simpl; intros H; [now exists []|].
  destruct IH as [s E]; [intros y z Hy Hz; apply H; now right|].
  rewrite E. apply sort_insert_defined. intros y Hy.
  apply H; [now left|]. right.
  exact (Permutation_in _ (array_sort_perm _ _ E) Hy).
Qed.

(** What the sort returns is in the order of the comparator. *)
Section Sorted.
Variable R : A -> A -> Prop.
Hypothesis R_before : forall x y c, cmp x y = Some c -> c <= 0 -> R x y.
Hypothesis R_after : forall x y c, cmp x y = Some c -> 0 < c -> R y x.
Hypothesis R_trans : forall x y z, R x y -> R y z -> R x z.

Lemma sort_insert_sorted x l s :
  StronglySorted R l -> sort_insert cmp x l = Some s -> StronglySorted R s.
Proof.
  intros Hl. revert s. induction Hl as [|y l Hs IH Hall]; simpl; intros s H.
  - injection H as <-. repeat constructor.
  - destruct (cmp x y) as [c|] eqn:E; [|discriminate].
    destruct (c <=? 0) eqn:Ec.
    + apply Z.leb_le in Ec. injection H as <-.
      constructor; [now constructor|].
      constructor; [now apply R_before with c|].
      eapply Forall_impl; [|exact Hall].
      intros z Hz. apply R_trans with y; [now apply R_before with c|exact Hz].
    + apply Z.leb_gt in Ec.
      destruct (sort_insert cmp x l) as [s'|] eqn:E'; [|discriminate].
      injection H as <-.
      constructor; [now apply IH|].
      eapply Permutation_Forall;
        [symmetry; exact (sort_insert_perm _ _ _ E')|].
      constructor; [now apply R_after with c | assumption].
Qed.

Lemma array_sort_sorted l s : array_sort cmp l = Some s -> StronglySorted R s.
Proof.
  revert s. induction l as [|x l IH]; simpl; intros s H.
  - injection H as <-. constructor.
  - destruct (array_sort cmp l) as [s'|]; [|discriminate].
    apply (sort_insert_sorted x s'); [now apply IH | exact H].
Qed.
End Sorted.
End ArraySortFacts.

Lemma notLater_trans a b c : notLater a b -> notLater b c -> notLater a c.
Proof.
  intros (x & y & -> & -> & Hxy) (y' & z & [= <-] & -> & Hyz).
  exists x, z. repeat split. lia.
Qed.

Lemma timeDifference_before a b c :
  timeDifference a b = Some c -> c <= 0 -> notLater a b.
Proof.
  destruct a as [x|], b as [y|]; cbn; try discriminate.
  intros [= <-] H. exists x, y. repeat split. lia.
Qed.

Lemma timeDifference_after a b c :
  timeDifference a b = Some c -> 0 < c -> notLater b a.
Proof.
  destruct a as [x|], b as [y|]; cbn; try discriminate.
  intros [= <-] H. exists y, x. repeat split. lia.
Qed.

(** A comparator that reads the date of both records throws exactly on the
    arrays of two or more records one of which carries no [Date]. *)
Section SortByDate.
Context {A : Type} (key : A -> DateField) (cmp : A -> A -> option Z).
Hypothesis cmp_throws :
  forall x y, cmp x y = None <-> isDate (key x) && isDate (key y) = false.

Lemma sort_insert_throws x y l :
  isDate (key x) && isDate (key y) = false ->
  sort_insert cmp x (y :: l) = None.
Proof.
  intros H. simpl. now rewrite (proj2 (cmp_throws x y) H).
Qed.

Lemma sort_insert_dates x l :
  isDate (key x) = true ->
  (forall y, In y l -> isDate (key y) = true) ->
  sort_insert cmp x l <> None.
Proof.
  intros Hx. induction l as [|y l IH]; simpl; intros Hl; [discriminate|].
  destruct (cmp x y) as [c|] eqn:E.
  - destruct (c <=? 0); [discriminate|].
    destruct (sort_insert cmp x l) eqn:E'; [discriminate|].
    exfalso. apply IH; [|reflexivity]. intros z Hz. apply Hl. now right.
  - apply cmp_throws in E. rewrite Hx, (Hl y (or_introl eq_refl)) in E.
    discriminate.
Qed.

Lemma not_all_dates l :
  (forall x, In x l -> isDate (key x) = true)
  \/ (exists x, In x l /\ isDate (key x) = false).
Proof.
  induction l as [|x l [IH|[z [Hz Hd]]]].
  - left. intros x [].
  - destruct (isDate (key x)) eqn:E.
    + left. intros y [<-|Hy]; [assumption | now apply IH].
    + right. exists x. split; [now left | assumption].
  - right. exists z. split; [now right | assumption].
Qed.

Lemma array_sort_throws l :
  array_sort cmp l = None <->
  (2 <= List.length l)%nat /\ exists x, In x l /\ isDate (key x) = false.
Proof.
  induction l as [|x l IH].
  - simpl. split; [discriminate | intros [H _]; lia].
  - simpl. destruct (array_sort cmp l) as [s|] eqn:E.
    + assert (Hperm : Permutation s l) by now apply array_sort_perm with cmp.
      split.
      * intros Hnone. split.
        { destruct l as [|y l]; [|simpl; lia].
          apply Permutation_sym, Permutation_nil in Hperm. subst s.
          discriminate. }
        destruct (not_all_dates (x :: l)) as [Hall|Hex]; [|exact Hex].
        exfalso. apply (sort_insert_dates x s); [| |exact Hnone].
        -- apply Hall. now left.
        -- intros y Hy. apply Hall. right.
           exact (Permutation_in _ Hperm Hy).
      * intros [Hlen [z [Hz Hd]]].
        destruct s as [|y s].
        { apply Permutation_nil in Hperm. subst l.
          simpl in Hlen. lia. }
        apply sort_insert_throws.
        destruct (isDate (key x)) eqn:Ex; [|reflexivity]. simpl.
        destruct Hz as [->|Hz]; [congruence|].
        destruct (isDate (key y)) eqn:Ey; [|reflexivity]. exfalso.
        assert (Hno : ~ ((2 <= List.length l)%nat /\
                         exists x, In x l /\ isDate (key x) = false)).
        { intros H. apply IH in H. discriminate. }
        apply Hno. split; [|exists z; now split].
        destruct l as [|a [|b l]]; [destruct Hz | | simpl; lia].
        destruct Hz as [->|[]].
        pose proof (Permutation_length Hperm) as Hlen'. simpl in Hlen'.
        destruct s; [|discriminate].
        apply Permutation_length_1_inv in Hperm.
        injection Hperm as ->. congruence.
    + split; [intros _ | reflexivity].
      destruct (proj1 IH eq_refl) as [Hlen [z [Hz Hd]]].
      split; [simpl; lia|]. exists z. split; [now right | assumption].
Qed.
End SortByDate.

Lemma newestFirst_throws a b :
  newestFirst a b = None <->
  isDate (GameRoom.createdAt a) && isDate (GameRoom.createdAt b) = false.
Proof.
  unfold newestFirst. rewrite timeDifference_throws. now rewrite andb_comm.
Qed.

Lemma oldestFirst_throws a b :
  oldestFirst a b = None <->
  isDate (GameParticipant.joinedAt a) && isDate (GameParticipant.joinedAt b)
  = false.
Proof. apply timeDifference_throws. Qed.

(** ** Facts about the broadcasts *)

Lemma broadcastToRoom_message w r msg ex c m :
  In (c, m) (broadcastToRoom w r msg ex) -> m = msg.
Proof.
  unfold broadcastToRoom. rewrite in_flat_map.
  intros [[u p] [_ Hin]].
  destruct (same (Player.roomId p) (Some r) && negb (same (Some u) ex)
            && isOpen w (Player.ws p)); simpl in Hin; [|tauto].
  destruct Hin as [[= _ <-]|[]]. reflexivity.
Qed.

Lemma broadcastToLobby_message w ty c m :
  In (c, m) (broadcastToLobby w ty) -> m = signal ty.
Proof.
  unfold broadcastToLobby. rewrite in_flat_map.
  intros [[u p] [_ Hin]].
  destruct (negb (truthy (Player.roomId p)) && isOpen w (Player.ws p));
    simpl in Hin; [|tauto].
  destruct Hin as [[= _ <-]|[]]. reflexivity.
Qed.


Lemma no_error_in_broadcasts w w' r msg ex ty c text :
  (forall t, msg <> error t) ->
  ~ In (c, error text) (broadcastToRoom w r msg ex ++ broadcastToLobby w' ty).
Proof.
  intros Hmsg Hin. apply in_app_or in Hin as [Hin|Hin].
  - apply broadcastToRoom_message in Hin. now apply (Hmsg text).
  - apply broadcastToLobby_message in Hin. discriminate.
Qed.

(** ** Invariants of the reachable worlds *)

Lemma or_default_zero x : or_default x 0 = x.
Proof. unfold or_default. destruct (Z.eqb_spec x 0); congruence. Qed.

Lemma createGameRoom_nonneg uuid now room st :
  roomsNonNegative st -> roomsNonNegative (fst (createGameRoom uuid now room st)).
Proof.
  intros H. unfold roomsNonNegative, createGameRoom. simpl.
  apply Forall_set; [simpl; lia | assumption].
Qed.

Lemma addParticipant_nonneg uuid now r u st :
  roomsNonNegative st -> roomsNonNegative (fst (addParticipant uuid now r u st)).
Proof.
  intros H. unfold roomsNonNegative, addParticipant. simpl.
  destruct (JsMap.get r (gameRooms st)) as [room|] eqn:E; [|assumption].
  apply Forall_set; [|assumption].
  apply get_In in E.
  apply (proj1 (Forall_forall _ _) H) in E. simpl in *.
  rewrite or_default_zero. lia.
Qed.

Lemma removeParticipant_nonneg r u st :
  roomsNonNegative st -> roomsNonNegative (removeParticipant r u st).
Proof.
  intros H. unfold roomsNonNegative, removeParticipant.
  destruct (find _ _); [|assumption]. simpl.
  destruct (JsMap.get r (gameRooms st)) as [room|]; [|assumption].
  apply Forall_set; [simpl; lia | assumption].
Qed.

Lemma on_message_nonneg env ws f w :
  roomsNonNegative (storage w) ->
  roomsNonNegative (storage (fst (on_message env ws f w))).
Proof.
  intros H. destruct f; simpl; try assumption.
  - unfold on_join_lobby.
    destruct userId as [u|]; [|assumption].
    destruct (u =? "")%string; assumption.
  - unfold on_create_room.
    destruct userId as [u|]; [|assumption].
    destruct (u =? "")%string; [assumption|].
    destruct (createGameRoom _ _ _ (storage w)) as [st1 created] eqn:E.
    simpl. unfold joinGameRoom. apply addParticipant_nonneg.
    change st1 with (fst (st1, created)). rewrite <- E.
    now apply createGameRoom_nonneg.
  - unfold on_join_room.
    destruct roomId as [r|]; [|assumption].
    destruct userId as [u|]; [|assumption].
    simpl. unfold joinGameRoom. now apply addParticipant_nonneg.
  - unfold on_leave_room.
    destruct userId as [u|]; [|assumption].
    destruct (lookupPlayer (Some u) w) as [player|]; [|assumption].
    destruct (Player.roomId player) as [r|]; [|assumption].
    destruct (r =? "")%string; [assumption|].
    simpl. now apply removeParticipant_nonneg.
Qed.

Lemma on_close_nonneg ws w :
  roomsNonNegative (storage w) ->
  roomsNonNegative (storage (fst (on_close ws w))).
Proof.
  intros H. unfold on_close.
  destruct (find (holds ws) (connectedPlayers w)) as [[u player]|]; [|assumption].
  destruct (Player.roomId player) as [r|]; [|assumption].
  destruct (r =? "")%string; [assumption|].
  simpl. now apply removeParticipant_nonneg.
Qed.

Lemma step_nonneg e w :
  roomsNonNegative (storage w) -> roomsNonNegative (storage (fst (step e w))).
Proof.
  destruct e; simpl; [apply on_message_nonneg|].
  intros H. now apply on_close_nonneg.
Qed.

Lemma reachable_nonneg st0 w :
  roomsNonNegative st0 -> reachable st0 w -> roomsNonNegative (storage w).
Proof.
  intros H0. induction 1 as [|w e _ IH]; [assumption|]. now apply step_nonneg.
Qed.

Lemma setPlayerRoom_unique u r players :
  NoDup (map fst players) -> NoDup (map fst (setPlayerRoom u r players)).
Proof.
  intros H. unfold setPlayerRoom.
  destruct (JsMap.get u players); [now apply NoDup_keys_set | assumption].
Qed.

Lemma step_unique e w : oneEntryPerUser w -> oneEntryPerUser (fst (step e w)).
Proof.
  unfold oneEntryPerUser. intros H. destruct e as [env ws f|ws]; simpl.
  - destruct f; simpl; try assumption.
    + unfold on_join_lobby.
      destruct userId as [u|]; [|assumption].
      destruct (u =? "")%string; [assumption|].
      simpl. now apply NoDup_keys_set.
    + unfold on_create_room.
      destruct userId as [u|]; [|assumption].
      destruct (u =? "")%string; [assumption|].
      destruct (createGameRoom _ _ _ (storage w)) as [st1 created].
      simpl. now apply setPlayerRoom_unique.
    + unfold on_join_room.
      destruct roomId as [r|]; [|assumption].
      destruct userId as [u|]; [|assumption].
      simpl. now apply setPlayerRoom_unique.
    + unfold on_leave_room.
      destruct userId as [u|]; [|assumption].
      destruct (lookupPlayer (Some u) w) as [player|]; [|assumption].
      destruct (Player.roomId player) as [r|]; [|assumption].
      destruct (r =? "")%string; [assumption|].
      simpl. now apply NoDup_keys_set.
  - unfold on_close. simpl.
    destruct (find (holds ws) (connectedPlayers w)) as [[u player]|];
      [|assumption].
    destruct (Player.roomId player) as [r|].
    + destruct (r =? "")%string; simpl; now apply NoDup_keys_delete.
    + simpl. now apply NoDup_keys_delete.
Qed.

Lemma reachable_unique st0 w : reachable st0 w -> oneEntryPerUser w.
Proof.
  induction 1 as [|w e _ IH]; [constructor|]. now apply step_unique.
Qed.

Lemma run_reachable st0 events :
  forall w, reachable st0 w -> reachable st0 (run events w).
Proof.
  induction events as [|e events IH]; intros w H; simpl; [assumption|].
  apply IH. now constructor.
Qed.

(** ** Handler equations used by several properties *)

Lemma truthy_false_cases (s : option string) :
  truthy s = false -> s = None \/ s = Some "".
Proof.
  destruct s as [x|]; simpl; [|now left].
  destruct (String.eqb_spec x ""); [subst; now right | discriminate].
Qed.

Lemma clamp_not_zero x : or_default (Z.max 2 (Z.min x 16)) 8 = Z.max 2 (Z.min x 16).
Proof. unfold or_default. destruct (Z.eqb_spec (Z.max 2 (Z.min x 16)) 0); lia. Qed.


Lemma on_join_room_eq env ws r u w :
  let st := joinGameRoom (participantUuid env) (participantDate env) r u
              (storage w) in
  let w' := mkWorld st (setPlayerRoom u (Some r) (connectedPlayers w))
              (notOpen w) in
  on_message env ws (join_room (Some r) (Some u)) w
  = (w', (ws, room_joined (getGameRoom r st))
         :: broadcastToRoom w' r (player_joined u) (Some u)
         ++ broadcastToLobby w' "room_list_updated").
Proof. reflexivity. Qed.

Lemma join_room_no_error env ws r u w c text :
  ~ In (c, error text)
       (snd (on_message env ws (join_room (Some r) (Some u)) w)).
Proof.
  rewrite on_join_room_eq. simpl. intros [H|H]; [discriminate|].
  revert H. apply no_error_in_broadcasts. discriminate.
Qed.

Lemma values_set_fresh {V} k (v : V) m :
  JsMap.get k m = None -> JsMap.values (JsMap.set k v m) = JsMap.values m ++ [v].
Proof.
  intros H. rewrite set_fresh by assumption.
  unfold JsMap.values. now rewrite map_app.
Qed.

Lemma delete_set_same {V} k (v : V) m :
  JsMap.delete k (JsMap.set k v m) = JsMap.delete k m.
Proof.
  induction m as [|[k0 v0] m IH]; simpl.
  - now rewrite String.eqb_refl.
  - destruct (k0 =? k)%string eqn:E; simpl.
    + now rewrite String.eqb_refl.
    + now rewrite E, IH.
Qed.

Lemma find_holds_after_leave ws u player m :
  JsMap.get u m = Some player ->
  find (holds ws) m = Some (u, player) ->
  find (holds ws) (JsMap.set u (Player.with_roomId None player) m)
  = Some (u, Player.with_roomId None player).
Proof.
  induction m as [|[k v] m IH]; simpl; [discriminate|].
  destruct (holds ws (k, v)) eqn:Ews.
  - intros _ [= -> ->]. rewrite String.eqb_refl. simpl.
    unfold holds in *. simpl in *. now rewrite Ews.
  - intros Hget Hfind.
    destruct (k =? u)%string eqn:Ek.
    + injection Hget as ->.
      apply find_some in Hfind as [_ Hh].
      unfold holds in *. simpl in *. congruence.
    + simpl. rewrite Ews. now apply IH.
Qed.

(** * Properties of the specification *)

(** ** C1: player count against participant rows *)

(** C1, evaluated on the session "A registers as u1, B as u2, A creates a room
    for 4 players": the stored room then has [currentPlayers = 2] while the
    room has exactly one participant row, the creator's.  [createGameRoom]
    starts the count at 1 for the host and [joinGameRoom] counts the host
    again, so the count and the number of rows differ right after creation. *)
Theorem C1_create_room_counts_host_twice :
  let st := storage (fst (step (createTrivia (Some 4)) lobbyAB)) in
  option_map GameRoom.currentPlayers (getGameRoom "room-1" st) = Some 2
  /\ map GameParticipant.userId (participantsOf "room-1" st) = ["u1"]
  /\ List.length (participantsOf "room-1" st) = 1%nat.
Proof. vm_compute. repeat split. Qed.

(** ** C2: joining a room that is full *)

(** C2 as stated fails: in [triviaFor2] the room has [currentPlayers = 2] and
    [maxPlayers = 2]; B's [join_room] gets no [error] frame and the
    repository changes, the count going to 3. *)
Lemma C2_full_room_join_goes_through :
  let result := step (joinTrivia env2) triviaFor2 in
  option_map (fun r => (GameRoom.currentPlayers r, GameRoom.maxPlayers r))
             (getGameRoom "room-1" (storage triviaFor2)) = Some (2, 2)
  /\ ~ ((exists text, In (connB, error text) (snd result))
        /\ storage (fst result) = storage triviaFor2)
  /\ option_map (fun r => (GameRoom.currentPlayers r, GameRoom.maxPlayers r))
                (getGameRoom "room-1" (storage (fst result))) = Some (3, 2).
Proof.
  split; [reflexivity|]. split; [|reflexivity].
  intros [_ H].
  apply (f_equal (fun st =>
           option_map GameRoom.currentPlayers (getGameRoom "room-1" st))) in H.
  vm_compute in H. discriminate.
Qed.

(** C2, amended.  The coordinator checks no capacity: a [join_room] with a
    string roomId and userId that names an existing room is applied whether
    or not the room is full.  The requester's reply is [room_joined] with the
    updated room, no [error] frame is sent to anyone, the stored count is
    incremented, a participant row is written, and for a room that was full
    the count now exceeds [maxPlayers]. *)
Theorem C2_join_existing_room_is_applied :
  forall env ws r u w room,
    getGameRoom r (storage w) = Some room ->
    let result := on_message env ws (join_room (Some r) (Some u)) w in
    let joined :=
      GameRoom.with_currentPlayers (GameRoom.currentPlayers room + 1) room in
    hd_error (snd result) = Some (ws, room_joined (Some joined))
    /\ (forall c text, ~ In (c, error text) (snd result))
    /\ getGameRoom r (storage (fst result)) = Some joined
    /\ JsMap.get (participantUuid env) (gameParticipants (storage (fst result)))
       = Some (GameParticipant.mk (participantUuid env) r u 0 None false
                 (Date (participantDate env)))
    /\ (GameRoom.currentPlayers room = GameRoom.maxPlayers room ->
        GameRoom.maxPlayers joined < GameRoom.currentPlayers joined).
Proof.
  intros env ws r u w room Hroom result joined.
  assert (Hst : getGameRoom r (storage (fst result)) = Some joined).
  { subst result. rewrite on_join_room_eq. simpl.
    unfold getGameRoom, joinGameRoom, addParticipant in *. simpl.
    rewrite Hroom, get_set_same, or_default_zero. reflexivity. }
  split; [|split; [|split; [|split]]].
  - subst result. rewrite on_join_room_eq in *. simpl in *. now rewrite Hst.
  - intros c text. apply join_room_no_error.
  - exact Hst.
  - subst result. rewrite on_join_room_eq. simpl.
    unfold joinGameRoom, addParticipant. simpl. apply get_set_same.
  - subst joined. simpl. lia.
Qed.

Lemma C2_join_existing_room_is_applied_witness :
  let result := on_message env2 connB (join_room (Some "room-1") (Some "u2"))
                  triviaFor2 in
  (forall c text, ~ In (c, error text) (snd result))
  /\ option_map GameRoom.currentPlayers
       (getGameRoom "room-1" (storage (fst result))) = Some 3.
Proof.
  pose proof (C2_join_existing_room_is_applied env2 connB "room-1" "u2"
                triviaFor2
                (GameRoom.mk "room-1" "Trivia Night" "u1" "waiting" 2 2 None
                   None 0 (Date 1000) None None) eq_refl) as (_ & Hno & Hst & _).
  split; [exact Hno|]. rewrite Hst. reflexivity.
Defined.

(** ** C3: joining the same room twice *)

(** C3 as stated fails: after B joined A's room twice as u2, the pair
    (room-1, u2) has two participant rows and the count was incremented by
    the second join as well. *)
Lemma C3_second_join_duplicates_membership :
  let once := fst (step (joinTrivia env2) triviaFor4) in
  let twice := fst (step (joinTrivia env3) once) in
  List.length (membershipsOf "room-1" "u2" (storage once)) = 1%nat
  /\ List.length (membershipsOf "room-1" "u2" (storage twice)) = 2%nat
  /\ option_map GameRoom.currentPlayers
       (getGameRoom "room-1" (storage once)) = Some 3
  /\ option_map GameRoom.currentPlayers
       (getGameRoom "room-1" (storage twice)) = Some 4.
Proof. vm_compute. repeat split. Qed.

(** C3, amended.  The repository keeps no uniqueness of (roomId, userId):
    every [join_room] with a string roomId and userId, handled with a fresh
    participant id, adds one more row for the pair, also when a live row for
    the pair exists (the pair then has at least two rows), and increments the
    count of the room when the room exists. *)
Theorem C3_every_join_adds_a_row :
  forall env ws r u w,
    JsMap.get (participantUuid env) (gameParticipants (storage w)) = None ->
    let st' := storage (fst (on_message env ws (join_room (Some r) (Some u)) w)) in
    List.length (membershipsOf r u st') = S (List.length (membershipsOf r u (storage w)))
    /\ (membershipsOf r u (storage w) <> [] ->
        (2 <= List.length (membershipsOf r u st'))%nat)
    /\ (forall room, getGameRoom r (storage w) = Some room ->
        option_map GameRoom.currentPlayers (getGameRoom r st')
        = Some (GameRoom.currentPlayers room + 1)).
Proof.
  intros env ws r u w Hfresh st'.
  assert (Hlen : List.length (membershipsOf r u st')
                 = S (List.length (membershipsOf r u (storage w)))).
  { subst st'. rewrite on_join_room_eq. simpl.
    unfold membershipsOf, joinGameRoom, addParticipant. simpl.
    rewrite values_set_fresh by assumption.
    rewrite filter_app, List.length_app. simpl.
    unfold isMembership at 2. simpl. rewrite !String.eqb_refl. simpl. lia. }
  split; [exact Hlen|]. split.
  - intros Hlive. rewrite Hlen.
    destruct (membershipsOf r u (storage w)); [congruence | simpl; lia].
  - intros room Hroom. subst st'. rewrite on_join_room_eq. simpl.
    unfold getGameRoom, joinGameRoom, addParticipant in *. simpl.
    rewrite Hroom, get_set_same, or_default_zero. reflexivity.
Qed.

Lemma C3_every_join_adds_a_row_witness :
  let once := fst (step (joinTrivia env2) triviaFor4) in
  let st' := storage (fst (on_message env3 connB
                             (join_room (Some "room-1") (Some "u2")) once)) in
  List.length (membershipsOf "room-1" "u2" st')
  = S (List.length (membershipsOf "room-1" "u2" (storage once))).
Proof.
  exact (proj1 (C3_every_join_adds_a_row env3 connB "room-1" "u2"
                  (fst (step (joinTrivia env2) triviaFor4)) eq_refl)).
Defined.

(** ** C4: the reply to create_room and the lobby notice *)




(** ** C5: leave_room outside a room *)

(** C5 as stated fails: B, registered and in the lobby, sends [leave_room];
    the coordinator sends nothing at all, so B receives no [error] frame. *)
Lemma C5_leave_in_lobby_gets_no_error :
  let result := step (Message env2 connB (leave_room (Some "u2"))) lobbyAB in
  lookupPlayer (Some "u2") lobbyAB = Some (Player.mk connB "u2" None)
  /\ snd result = []
  /\ ~ (exists text, In (connB, error text) (snd result)).
Proof.
  split; [reflexivity|]. split; [reflexivity|].
  intros [text H]. vm_compute in H. exact H.
Qed.

(** C5, amended.  For every [leave_room] frame whose userId has no registry
    entry, or an entry with no current room, the coordinator sends no frame
    at all (neither [room_left] nor [error], no broadcast) and leaves the
    repository and the registry unchanged. *)
Theorem C5_leave_outside_a_room_is_silent :
  forall env ws userId w,
    (forall player, lookupPlayer userId w = Some player ->
                    truthy (Player.roomId player) = false) ->
    on_message env ws (leave_room userId) w = (w, []).
Proof.
  intros env ws userId w Hnoroom. simpl. unfold on_leave_room.
  destruct userId as [u|]; [|reflexivity].
  destruct (lookupPlayer (Some u) w) as [player|] eqn:E; [|reflexivity].
  specialize (Hnoroom player eq_refl).
  destruct (truthy_false_cases _ Hnoroom) as [-> | ->]; reflexivity.
Qed.

Lemma C5_leave_outside_a_room_is_silent_witness :
  on_message env2 connB (leave_room (Some "u2")) lobbyAB = (lobbyAB, []).
Proof.
  apply (C5_leave_outside_a_room_is_silent env2 connB (Some "u2") lobbyAB).
  intros player H. vm_compute in H. injection H as <-. reflexivity.
Defined.

(** ** C6: closing the transport against leaving first *)

(** C6, at the input where the code departs from it.  In the reachable world
    [twoNames] connection A is in room-1 under u1, and the registry holds an
    older entry u0 for the same socket.  The close handler stops at the
    first entry that holds the socket: closing A deletes the entry u0 and
    leaves the repository as it is, the row and the count of u1 included,
    whereas [leave_room] for u1 followed by the close removes the row of u1
    and decrements the count. *)
Lemma C6_close_differs_from_leave_then_close :
  let closed := fst (step (Close connA) twoNames) in
  let left := fst (step (Message env2 connA (leave_room (Some "u1"))) twoNames) in
  let leftClosed := fst (step (Close connA) left) in
  reachable emptyStorage twoNames
  /\ In ("u1", Player.mk connA "u1" (Some "room-1")) (connectedPlayers twoNames)
  /\ storage closed = storage twoNames
  /\ List.length (participantsOf "room-1" (storage closed)) = 1%nat
  /\ List.length (participantsOf "room-1" (storage leftClosed)) = 0%nat
  /\ storage closed <> storage leftClosed.
Proof.
  split; [apply run_reachable, reachable_start|].
  split; [vm_compute; right; now left|].
  split; [reflexivity|]. split; [reflexivity|]. split; [reflexivity|].
  intros H.
  apply (f_equal (fun st => List.length (participantsOf "room-1" st))) in H.
  vm_compute in H. discriminate.
Qed.

(** ** C7: get_rooms *)

(** C7, at the input where the code departs from it.  Two waiting rooms are
    stored and the server is started again on its data file.  The rooms read
    back carry their [createdAt] as text, the comparator of [getGameRooms]
    calls [getTime] on it and throws, and [get_rooms] is answered with the
    error frame of the handler's [catch] instead of the list of the two
    waiting rooms.  Nothing is changed. *)
Theorem C7_get_rooms_fails_after_restart :
  forall toISOString,
    let w := restarted toISOString in
    let result := on_message env3 connA get_rooms w in
    map GameRoom.id (filter isWaiting (map snd (gameRooms (storage w))))
    = ["room-1"; "room-2"]
    /\ getGameRooms (storage w) = None
    /\ snd result = [(connA, error "Failed to get rooms")]
    /\ fst result = w.
Proof.
  intros toISOString. repeat split.
Qed.

(** ** C8: the player count is never negative *)

(** C8.  Let the server start with a repository in which no room has a
    negative count (the empty one, for instance).  In every world reachable
    from there by inbound frames and close events, no room has a negative
    [currentPlayers].  Removing a participant that has a row gives the room
    the count [max 0 (n - 1)]; when the pair has no row, [removeParticipant]
    changes nothing, so a [leave_room] or a close for a user who has no row
    in the room of the registry entry leaves the repository, and with it
    every count, as it was. *)
Theorem C8_currentPlayers_never_negative :
  forall st0 w,
    roomsNonNegative st0 ->
    reachable st0 w ->
    (forall k room, In (k, room) (gameRooms (storage w)) ->
                    0 <= GameRoom.currentPlayers room)
    /\ (forall r u row room,
        find (isMembership r u) (JsMap.values (gameParticipants (storage w)))
        = Some row ->
        getGameRoom r (storage w) = Some room ->
        getGameRoom r (removeParticipant r u (storage w))
        = Some (GameRoom.with_currentPlayers
                  (Z.max 0 (GameRoom.currentPlayers room - 1)) room))
    /\ (forall r u, membershipsOf r u (storage w) = [] ->
                    removeParticipant r u (storage w) = storage w)
    /\ (forall env ws u,
        (forall player r, JsMap.get u (connectedPlayers w) = Some player ->
                          Player.roomId player = Some r ->
                          membershipsOf r u (storage w) = []) ->
        storage (fst (step (Message env ws (leave_room (Some u))) w))
        = storage w)
    /\ (forall ws,
        (forall u player r, find (holds ws) (connectedPlayers w)
                            = Some (u, player) ->
                            Player.roomId player = Some r ->
                            membershipsOf r u (storage w) = []) ->
        storage (fst (step (Close ws) w)) = storage w).
Proof.
  intros st0 w Hstart Hreach.
  assert (Hnone : forall r u, membershipsOf r u (storage w) = [] ->
                              removeParticipant r u (storage w) = storage w).
  { intros r u Hrows. unfold removeParticipant, membershipsOf in *.
    destruct (find _ _) as [row|] eqn:E; [|reflexivity].
    apply find_some in E as [Hin Hrow].
    assert (Hf : In row (filter (isMembership r u)
                   (JsMap.values (gameParticipants (storage w)))))
      by (apply filter_In; now split).
    rewrite Hrows in Hf. destruct Hf. }
  split; [|split; [|split; [|split]]].
  - intros k room Hin.
    apply (reachable_nonneg _ _ Hstart) in Hreach.
    apply (proj1 (Forall_forall _ _) Hreach) in Hin. exact Hin.
  - intros r u row room Hfind Hroom.
    unfold removeParticipant, getGameRoom in *. rewrite Hfind. simpl.
    now rewrite Hroom, get_set_same, or_default_zero.
  - exact Hnone.
  - intros env ws u Hrows. simpl. unfold on_leave_room. simpl.
    destruct (JsMap.get u (connectedPlayers w)) as [player|]; [|reflexivity].
    destruct (Player.roomId player) as [r|] eqn:Er; [|reflexivity].
    destruct (r =? "")%string; [reflexivity|].
    simpl. unfold leaveGameRoom. apply Hnone. now apply (Hrows player r).
  - intros ws Hrows. simpl. unfold on_close. simpl.
    destruct (find (holds ws) (connectedPlayers w)) as [[u player]|] eqn:E;
      [|reflexivity].
    destruct (Player.roomId player) as [r|] eqn:Er; [|reflexivity].
    destruct (r =? "")%string; [reflexivity|].
    simpl. unfold leaveGameRoom. apply Hnone. now apply (Hrows u player r).
Qed.

Lemma C8_currentPlayers_never_negative_witness :
  let w := run [createTrivia (Some 2); joinTrivia env2; Close connB;
                Message env3 connA (leave_room (Some "u1"))] lobbyAB in
  roomsNonNegative emptyStorage
  /\ reachable emptyStorage w
  /\ option_map GameRoom.currentPlayers (getGameRoom "room-1" (storage w))
     = Some 1
  /\ Forall (fun e => 0 <= GameRoom.currentPlayers (snd e))
            (gameRooms (storage w)).
Proof.
  assert (Hstart : roomsNonNegative emptyStorage) by constructor.
  assert (Hreach : reachable emptyStorage
            (run [createTrivia (Some 2); joinTrivia env2; Close connB;
                  Message env3 connA (leave_room (Some "u1"))] lobbyAB))
    by apply run_reachable, run_reachable, reachable_start.
  split; [exact Hstart|]. split; [exact Hreach|]. split; [reflexivity|].
  apply Forall_forall. intros [k room].
  exact (proj1 (C8_currentPlayers_never_negative _ _ Hstart Hreach) k room).
Defined.

(** ** C9: two connections registering the same userId *)

(** C9 as stated fails: A registered as u1 and is in room-1; when B registers
    with the same userId the registry still has one entry for u1, now holding
    B's socket with no room; no entry holds A's socket any more. *)
Lemma C9_second_registration_replaces_first :
  let w' := fst (step (Message env2 connB (join_lobby (Some "u1"))) triviaFor4) in
  JsMap.get "u1" (connectedPlayers triviaFor4)
  = Some (Player.mk connA "u1" (Some "room-1"))
  /\ JsMap.get "u1" (connectedPlayers w') = Some (Player.mk connB "u1" None)
  /\ find (holds connA) (connectedPlayers w') = None
  /\ ~ In ("u1", Player.mk connA "u1" (Some "room-1")) (connectedPlayers w').
Proof.
  split; [reflexivity|]. split; [reflexivity|]. split; [reflexivity|].
  vm_compute. intros [H|[H|[]]]; discriminate.
Qed.

(** C9, amended.  The registry is keyed by userId.  In every world reachable
    from a start of the server,
    after a connection registers with a non-empty userId [u], the entry of
    [u] holds that connection's socket and no room, and it is the only entry
    of [u]; when [u] was registered before (by another connection, possibly
    in a room), that entry is overwritten in place and no entry is added. *)
Theorem C9_registration_overwrites_entry_of_user :
  forall st0 env ws u w,
    reachable st0 w ->
    u <> "" ->
    let w' := fst (on_message env ws (join_lobby (Some u)) w) in
    JsMap.get u (connectedPlayers w') = Some (Player.mk ws u None)
    /\ (forall player, In (u, player) (connectedPlayers w') ->
                       player = Player.mk ws u None)
    /\ (forall previous,
        JsMap.get u (connectedPlayers w) = Some previous ->
        map fst (connectedPlayers w') = map fst (connectedPlayers w)).
Proof.
  intros st0 env ws u w Hreach Hu w'.
  apply String.eqb_neq in Hu.
  assert (Hw' : connectedPlayers w'
                = JsMap.set u (Player.mk ws u None) (connectedPlayers w)).
  { subst w'. simpl. unfold on_join_lobby. now rewrite Hu. }
  assert (Hget : JsMap.get u (connectedPlayers w') = Some (Player.mk ws u None))
    by (rewrite Hw'; apply get_set_same).
  split; [exact Hget|]. split.
  - intros player Hin.
    assert (Hnd : NoDup (map fst (connectedPlayers w'))).
    { rewrite Hw'. apply NoDup_keys_set.
      now apply (reachable_unique st0). }
    apply (NoDup_keys_get _ _ _ Hnd) in Hin. congruence.
  - intros previous Hprev. rewrite Hw'.
    now apply set_keys_present with (v0 := previous).
Qed.

Lemma C9_registration_overwrites_entry_of_user_witness :
  let w' := fst (on_message env2 connB (join_lobby (Some "u1")) triviaFor4) in
  JsMap.get "u1" (connectedPlayers w') = Some (Player.mk connB "u1" None).
Proof.
  assert (Hreach : reachable emptyStorage triviaFor4)
    by (apply reachable_step, run_reachable, reachable_start).
  assert (Hu : "u1" <> "") by discriminate.
  exact (proj1 (C9_registration_overwrites_entry_of_user emptyStorage env2
                  connB "u1" triviaFor4 Hreach Hu)).
Defined.

(** ** C10: join_room for a room that does not exist *)

(** C10.  For every [join_room] frame with a string roomId and userId whose
    roomId names no stored room, the requester's reply is [room_joined]
    without a room record and no [error] frame is sent to anyone; the room
    table is unchanged, and a participant row for that roomId and userId is
    written to the participant table. *)
Theorem C10_join_of_missing_room_is_accepted :
  forall env ws r u w,
    getGameRoom r (storage w) = None ->
    let result := on_message env ws (join_room (Some r) (Some u)) w in
    let row := GameParticipant.mk (participantUuid env) r u 0 None false
                 (Date (participantDate env)) in
    hd_error (snd result) = Some (ws, room_joined None)
    /\ (forall c text, ~ In (c, error text) (snd result))
    /\ gameRooms (storage (fst result)) = gameRooms (storage w)
    /\ JsMap.get (participantUuid env) (gameParticipants (storage (fst result)))
       = Some row
    /\ In row (participantsOf r (storage (fst result))).
Proof.
  intros env ws r u w Hnone result row.
  assert (Hrooms : gameRooms (storage (fst result)) = gameRooms (storage w)).
  { subst result. rewrite on_join_room_eq. simpl.
    unfold getGameRoom, joinGameRoom, addParticipant in *. simpl.
    now rewrite Hnone. }
  assert (Hrow : JsMap.get (participantUuid env)
                   (gameParticipants (storage (fst result))) = Some row).
  { subst result. rewrite on_join_room_eq. simpl.
    unfold joinGameRoom, addParticipant. simpl. apply get_set_same. }
  split; [|split; [|split; [|split]]].
  - clear Hrooms Hrow. subst result. rewrite on_join_room_eq. simpl.
    unfold getGameRoom, joinGameRoom, addParticipant in *. simpl.
    rewrite Hnone. now rewrite Hnone.
  - intros c text. apply join_room_no_error.
  - exact Hrooms.
  - exact Hrow.
  - unfold participantsOf. apply filter_In. split.
    + apply get_In in Hrow. now apply (in_map snd) in Hrow.
    + simpl. apply String.eqb_refl.
Qed.

Lemma C10_join_of_missing_room_is_accepted_witness :
  let result := on_message env2 connB
                  (join_room (Some "no-such-room") (Some "u2")) lobbyAB in
  hd_error (snd result) = Some (connB, room_joined None)
  /\ List.length (participantsOf "no-such-room" (storage (fst result))) = 1%nat.
Proof.
  split; [|reflexivity].
  exact (proj1 (C10_join_of_missing_room_is_accepted env2 connB "no-such-room"
                  "u2" lobbyAB eq_refl)).
Defined.

(** * Further properties of the code *)

(** ** Slices *)

Section SliceFacts.
Context {A : Type}.
Implicit Types (l : list A) (R : A -> A -> Prop).

Lemma StronglySorted_app_l R l1 l2 :
  StronglySorted R (l1 ++ l2) -> StronglySorted R l1.
Proof.
  induction l1 as [|x l1 IH]; simpl; intros H; [constructor|].
  inversion H as [|? ? Hs Hall]; subst.
  constructor; [now apply IH|].
  apply Forall_app in Hall. tauto.
Qed.

Lemma StronglySorted_app_r R l1 l2 :
  StronglySorted R (l1 ++ l2) -> StronglySorted R l2.
Proof.
  induction l1 as [|x l1 IH]; simpl; intros H; [assumption|].
  inversion H; subst. now apply IH.
Qed.

Lemma js_slice_parts start stop l :
  exists before after, l = before ++ js_slice start stop l ++ after.
Proof.
  unfold js_slice.
  set (k := Z.to_nat (relative_index (Z.of_nat (List.length l)) start)).
  set (n := Z.to_nat _).
  exists (firstn k l), (skipn n (skipn k l)).
  now rewrite (firstn_skipn n (skipn k l)), (firstn_skipn k l).
Qed.

Lemma js_slice_In start stop l x : In x (js_slice start stop l) -> In x l.
Proof.
  destruct (js_slice_parts start stop l) as (before & after & H).
  intros Hin. rewrite H. apply in_or_app. right. apply in_or_app. now left.
Qed.

Lemma js_slice_sorted R start stop l :
  StronglySorted R l -> StronglySorted R (js_slice start stop l).
Proof.
  destruct (js_slice_parts start stop l) as (before & after & H).
  intros Hs. rewrite H in Hs.
  apply StronglySorted_app_r in Hs. now apply StronglySorted_app_l in Hs.
Qed.

Lemma js_slice_NoDup {B} (f : A -> B) start stop l :
  NoDup (map f l) -> NoDup (map f (js_slice start stop l)).
Proof.
  destruct (js_slice_parts start stop l) as (before & after & H).
  intros Hnd. rewrite H, !map_app in Hnd.
  apply NoDup_app_remove_l in Hnd. now apply NoDup_app_remove_r in Hnd.
Qed.

Lemma js_slice_length offset limit l :
  0 <= limit ->
  (List.length (js_slice offset (offset + limit) l) <= Z.to_nat limit)%nat.
Proof.
  intros Hlimit. unfold js_slice. rewrite length_firstn.
  etransitivity; [apply Nat.le_min_l|].
  set (len := Z.of_nat (List.length l)).
  assert (H : relative_index len (offset + limit) - relative_index len offset
              <= limit).
  { assert (0 <= len) by (subst len; lia).
    unfold relative_index.
    destruct (Z.ltb_spec (offset + limit) 0); destruct (Z.ltb_spec offset 0);
      lia. }
  lia.
Qed.
End SliceFacts.

(** ** Frames: who receives what *)

Lemma same_true a b : same a b = true <-> a = b.
Proof.
  destruct a as [x|], b as [y|]; simpl; split; try congruence.
  - intros H. apply String.eqb_eq in H. now subst.
  - intros [= ->]. apply String.eqb_refl.
Qed.

Lemma broadcastToRoom_recipient w r msg ex c m :
  In (c, m) (broadcastToRoom w r msg ex) ->
  m = msg
  /\ isOpen w c = true
  /\ exists u player,
       In (u, player) (connectedPlayers w) /\ Player.ws player = c
       /\ Player.roomId player = Some r /\ ex <> Some u.
Proof.
  unfold broadcastToRoom. rewrite in_flat_map.
  intros [[u p] [Hentry Hin]].
  destruct (same (Player.roomId p) (Some r)) eqn:Er;
    destruct (same (Some u) ex) eqn:Ex;
    destruct (isOpen w (Player.ws p)) eqn:Eo; simpl in Hin; try tauto.
  destruct Hin as [[= <- <-]|[]].
  apply same_true in Er.
  split; [reflexivity|]. split; [assumption|].
  exists u, p. repeat split; try assumption.
  intros ->. rewrite (proj2 (same_true _ _) eq_refl) in Ex. discriminate.
Qed.

Lemma broadcastToRoom_reaches w r msg ex u player :
  In (u, player) (connectedPlayers w) ->
  Player.roomId player = Some r ->
  ex <> Some u ->
  isOpen w (Player.ws player) = true ->
  In (Player.ws player, msg) (broadcastToRoom w r msg ex).
Proof.
  intros Hin Hr Hex Hopen. unfold broadcastToRoom. rewrite in_flat_map.
  exists (u, player). split; [assumption|].
  assert (E1 : same (Some r) (Some r) = true) by now apply same_true.
  rewrite Hr, Hopen, E1.
  destruct (same (Some u) ex) eqn:E.
  - apply same_true in E. congruence.
  - simpl. now left.
Qed.

Lemma broadcastToLobby_recipient w ty c m :
  In (c, m) (broadcastToLobby w ty) ->
  m = signal ty
  /\ isOpen w c = true
  /\ exists u player,
       In (u, player) (connectedPlayers w) /\ Player.ws player = c
       /\ truthy (Player.roomId player) = false.
Proof.
  unfold broadcastToLobby. rewrite in_flat_map.
  intros [[u p] [Hentry Hin]].
  destruct (truthy (Player.roomId p)) eqn:Et;
    destruct (isOpen w (Player.ws p)) eqn:Eo; simpl in Hin; try tauto.
  destruct Hin as [[= <- <-]|[]].
  split; [reflexivity|]. split; [assumption|].
  exists u, p. repeat split; assumption.
Qed.

Lemma on_leave_room_eq ws u r player w :
  JsMap.get u (connectedPlayers w) = Some player ->
  Player.roomId player = Some r ->
  r <> "" ->
  let st := leaveGameRoom r u (storage w) in
  let w' := mkWorld st
              (JsMap.set u (Player.with_roomId None player) (connectedPlayers w))
              (notOpen w) in
  on_leave_room ws (Some u) w
  = (w', broadcastToRoom (mkWorld st (connectedPlayers w) (notOpen w)) r
           (player_left u) (Some u)
         ++ (ws, room_left) :: broadcastToLobby w' "room_list_updated").
Proof.
  intros Hget Hroom Hr. apply String.eqb_neq in Hr.
  unfold on_leave_room. simpl. now rewrite Hget, Hroom, Hr.
Qed.

(** The frames sent while one inbound frame is handled: a reply goes to the
    requester; a fanned-out frame goes to the open socket of a registry
    entry.  Every frame of a close event is fanned out. *)
Lemma on_message_routing env ws f w c m :
  In (c, m) (snd (on_message env ws f w)) ->
  (isBroadcast m = false /\ c = ws)
  \/ (isBroadcast m = true /\ isOpen (fst (on_message env ws f w)) c = true).
Proof.
  destruct f; simpl.
  - intros [[= <- <-]|[]]. now left.
  - intros [[= <- <-]|[]]. now left.
  - unfold on_join_lobby. destruct userId as [u|].
    + destruct (u =? "")%string; simpl; intros [[= <- <-]|[]]; now left.
    + simpl. intros [[= <- <-]|[]]. now left.
  - unfold on_create_room. destruct userId as [u|].
    + destruct (u =? "")%string; simpl.
      * intros [[= <- <-]|[]]. now left.
      * intros [[= <- <-]|H]; [now left|].
        apply broadcastToLobby_recipient in H as (-> & Hopen & _).
        right. split; [reflexivity | exact Hopen].
    + simpl. intros [[= <- <-]|[]]. now left.
  - unfold on_join_room. destruct roomId as [r|], userId as [u|]; simpl;
      try (intros [[= <- <-]|[]]; now left).
    intros [[= <- <-]|H]; [now left|].
    apply in_app_or in H as [H|H].
    + apply broadcastToRoom_recipient in H as (-> & Hopen & _).
      right. split; [reflexivity | exact Hopen].
    + apply broadcastToLobby_recipient in H as (-> & Hopen & _).
      right. split; [reflexivity | exact Hopen].
  - unfold on_leave_room. destruct userId as [u|]; simpl; [|tauto].
    destruct (JsMap.get u (connectedPlayers w)) as [player|]; simpl; [|tauto].
    destruct (Player.roomId player) as [r|]; simpl; [|tauto].
    destruct (r =? "")%string; simpl; [tauto|].
    intros H. apply in_app_or in H as [H|[[= <- <-]|H]].
    + apply broadcastToRoom_recipient in H as (-> & Hopen & _).
      right. split; [reflexivity | exact Hopen].
    + now left.
    + apply broadcastToLobby_recipient in H as (-> & Hopen & _).
      right. split; [reflexivity | exact Hopen].
  - intros [[= <- <-]|[]]. left.
    now destruct (getGameRooms (storage w)).
  - intros [[= <- <-]|[]]. now left.
Qed.

Lemma on_close_routing ws w c m :
  In (c, m) (snd (on_close ws w)) ->
  isBroadcast m = true /\ isOpen w c = true.
Proof.
  unfold on_close.
  destruct (find (holds ws) (connectedPlayers w)) as [[u player]|];
    simpl; [|tauto].
  destruct (Player.roomId player) as [r|].
  - destruct (r =? "")%string; simpl.
    + intros H. now apply broadcastToLobby_recipient in H as (-> & Hopen & _).
    + intros H. apply in_app_or in H as [H|H].
      * now apply broadcastToRoom_recipient in H as (-> & Hopen & _).
      * now apply broadcastToLobby_recipient in H as (-> & Hopen & _).
  - simpl. intros H.
    now apply broadcastToLobby_recipient in H as (-> & Hopen & _).
Qed.

(** X1.  Routing of frames, for every transport event in every world: a
    frame that is not fanned out (error, lobby_joined, room_created,
    room_joined, room_left, rooms_list) is sent only to the socket whose
    frame is being handled; a fanned-out frame (player_joined, player_left,
    room_list_updated) is sent only to sockets that are open after the
    event, so never to the socket of a close event. *)
Theorem X1_replies_to_requester_broadcasts_to_open_sockets :
  forall e w c m,
    In (c, m) (snd (step e w)) ->
    (if isBroadcast m
     then isOpen (fst (step e w)) c = true
     else exists env f, e = Message env c f)
    /\ (forall ws, e = Close ws -> c <> ws).
Proof.
  intros e w c m Hin. destruct e as [env ws f|ws]; simpl in *.
  - split; [|discriminate].
    apply on_message_routing in Hin as [[Hm ->]|[Hm Hopen]]; rewrite Hm.
    + now exists env, f.
    + exact Hopen.
  - assert (Hnot : notOpen (fst (on_close ws (markClosed ws w)))
                   = ws :: notOpen w).
    { unfold on_close.
      destruct (find _ _) as [[u player]|]; [|reflexivity].
      destruct (Player.roomId player) as [r|]; [|reflexivity].
      destruct (r =? "")%string; reflexivity. }
    apply on_close_routing in Hin as [Hm Hopen]. rewrite Hm.
    assert (Hopen' : isOpen (fst (on_close ws (markClosed ws w))) c = true)
      by (unfold isOpen in *; now rewrite Hnot).
    split; [exact Hopen'|].
    intros ws' [= <-] ->.
    unfold isOpen in Hopen. simpl in Hopen.
    now rewrite Nat.eqb_refl in Hopen.
Qed.

Lemma X1_replies_to_requester_broadcasts_to_open_sockets_witness :
  isOpen (fst (step (Close connB) (fst (step (joinTrivia env2) triviaFor4))))
         connA = true
  /\ connA <> connB.
Proof.
  assert (Hin : In (connA, player_left "u2")
                   (snd (step (Close connB)
                           (fst (step (joinTrivia env2) triviaFor4)))))
    by (vm_compute; now left).
  destruct (X1_replies_to_requester_broadcasts_to_open_sockets _ _ _ _ Hin)
    as [Hopen Hclose].
  split; [exact Hopen | exact (Hclose connB eq_refl)].
Defined.

(** ** Frames the coordinator rejects *)



(** ** leave_room from inside a room *)

Lemma length_set_present {V} k (v v0 : V) m :
  JsMap.get k m = Some v0 -> List.length (JsMap.set k v m) = List.length m.
Proof.
  intros H. rewrite <- (length_map fst), <- (length_map fst m).
  now rewrite (set_keys_present k v v0 m H).
Qed.

(** X3.  A [leave_room] for a registered user who is in room [r]: the
    repository is the result of one [leaveGameRoom r u], the registry entry
    of the user stays in place with its room reset to null, the requester is
    sent [room_left], no [player_left] frame goes to an entry of the leaving
    user, and a further [leave_room] for the user is ignored without any
    frame. *)
Theorem X3_leave_room_resets_entry_and_is_idempotent :
  forall env ws u r player w,
    JsMap.get u (connectedPlayers w) = Some player ->
    Player.roomId player = Some r ->
    r <> "" ->
    let result := on_message env ws (leave_room (Some u)) w in
    storage (fst result) = leaveGameRoom r u (storage w)
    /\ JsMap.get u (connectedPlayers (fst result))
       = Some (Player.with_roomId None player)
    /\ map fst (connectedPlayers (fst result)) = map fst (connectedPlayers w)
    /\ In (ws, room_left) (snd result)
    /\ (forall c, In (c, player_left u) (snd result) ->
        exists u' other, u' <> u /\ In (u', other) (connectedPlayers w)
                         /\ Player.ws other = c
                         /\ Player.roomId other = Some r)
    /\ on_message env ws (leave_room (Some u)) (fst result) = (fst result, []).
Proof.
  intros env ws u r player w Hget Hroom Hr result.
  pose proof (on_leave_room_eq ws u r player w Hget Hroom Hr) as Heq.
  cbv zeta in Heq. change (on_leave_room ws (Some u) w) with result in Heq.
  rewrite Heq. cbn [fst snd].
  split; [reflexivity|].
  split; [apply get_set_same|].
  split; [now apply set_keys_present with (v0 := player)|].
  split; [apply in_or_app; right; now left|].
  split.
  - intros c Hin. apply in_app_or in Hin as [Hin|[Hin|Hin]].
    + apply broadcastToRoom_recipient in Hin as (_ & _ & u' & other & H1 & H2 & H3 & H4).
      exists u', other. repeat split; try assumption. congruence.
    + discriminate.
    + apply broadcastToLobby_message in Hin. discriminate.
  - cbn [on_message]. unfold on_leave_room, lookupPlayer.
    cbn [connectedPlayers]. now rewrite get_set_same.
Qed.

Lemma X3_leave_room_resets_entry_and_is_idempotent_witness :
  let w := fst (step (joinTrivia env2) triviaFor4) in
  let result := on_message env3 connB (leave_room (Some "u2")) w in
  In (connB, room_left) (snd result)
  /\ on_message env3 connB (leave_room (Some "u2")) (fst result)
     = (fst result, []).
Proof.
  assert (Hr : "room-1" <> "") by discriminate.
  destruct (X3_leave_room_resets_entry_and_is_idempotent env3 connB "u2"
              "room-1" (Player.mk connB "u2" (Some "room-1"))
              (fst (step (joinTrivia env2) triviaFor4)) eq_refl eq_refl Hr)
    as (_ & _ & _ & Hleft & _ & Hagain).
  split; [exact Hleft | exact Hagain].
Defined.

(** ** The close handler *)

Lemma length_delete_present {V} k (v : V) m :
  JsMap.get k m = Some v ->
  S (List.length (JsMap.delete k m)) = List.length m.
Proof.
  induction m as [|[k0 v0] m IH]; simpl; [discriminate|].
  destruct (k0 =? k)%string; simpl; [reflexivity|].
  intros H. now rewrite IH.
Qed.

Lemma find_holds_key ws u player m :
  find (holds ws) m = Some (u, player) ->
  exists first, JsMap.get u m = Some first.
Proof.
  intros H. apply find_some in H as [Hin _].
  induction m as [|[k v] m IH]; simpl in *; [tauto|].
  destruct (k =? u)%string eqn:E; [now exists v|].
  destruct Hin as [[= -> ->]|Hin]; [|now apply IH].
  now rewrite String.eqb_refl in E.
Qed.

Lemma on_close_registry ws w :
  connectedPlayers (fst (on_close ws w))
  = match find (holds ws) (connectedPlayers w) with
    | Some (u, _) => JsMap.delete u (connectedPlayers w)
    | None => connectedPlayers w
    end.
Proof.
  unfold on_close.
  destruct (find (holds ws) (connectedPlayers w)) as [[u player]|];
    [|reflexivity].
  destruct (Player.roomId player) as [r|]; [|reflexivity].
  destruct (r =? "")%string; reflexivity.
Qed.

(** X4.  A close event removes at most one registry entry: when some entry
    holds the closed socket, the registry loses exactly one entry (the entry
    of the first userId, in insertion order, that holds the socket) and every
    other userId keeps its entry as it was; when no entry holds the socket,
    the repository and the registry are unchanged and no frame is sent. *)
Theorem X4_close_removes_one_entry :
  forall ws w,
    let result := step (Close ws) w in
    match find (holds ws) (connectedPlayers w) with
    | Some (u, player) =>
        S (List.length (connectedPlayers (fst result)))
        = List.length (connectedPlayers w)
        /\ (forall u', u' <> u ->
            JsMap.get u' (connectedPlayers (fst result))
            = JsMap.get u' (connectedPlayers w))
    | None =>
        storage (fst result) = storage w
        /\ connectedPlayers (fst result) = connectedPlayers w
        /\ snd result = []
    end.
Proof.
  intros ws w result.
  pose proof (on_close_registry ws (markClosed ws w)) as Hreg.
  cbn [markClosed connectedPlayers] in Hreg.
  change (on_close ws (markClosed ws w)) with result in Hreg.
  destruct (find (holds ws) (connectedPlayers w)) as [[u player]|] eqn:E.
  - rewrite Hreg. split.
    + destruct (find_holds_key _ _ _ _ E) as [first Hfirst].
      now apply length_delete_present with (v := first).
    + intros u' Hne. clear E Hreg.
      induction (connectedPlayers w) as [|[k v] m IH]; simpl; [reflexivity|].
      destruct (k =? u)%string eqn:Eu; simpl.
      * apply String.eqb_eq in Eu. subst k.
        destruct (u =? u')%string eqn:Eu'; [|reflexivity].
        apply String.eqb_eq in Eu'. congruence.
      * destruct (k =? u')%string; [reflexivity | exact IH].
  - subst result. cbn [step]. unfold on_close.
    cbn [markClosed connectedPlayers]. rewrite E. repeat split.
Qed.

(** X26.  Where the close handler does clean up like [leave_room].  For every
    world in which the first registry entry holding the closed socket is the
    entry of user [u], and [u] is in room [r]: closing the transport gives
    the same repository, and indeed the same world, as the connection first
    sending [leave_room] for [u] and then closing; in both cases the
    repository is the result of one [leaveGameRoom r u]. *)
Theorem X26_close_cleans_up_like_leave_for_first_entry :
  forall env ws u r player w,
    JsMap.get u (connectedPlayers w) = Some player ->
    find (holds ws) (connectedPlayers w) = Some (u, player) ->
    Player.roomId player = Some r ->
    r <> "" ->
    let closed := fst (step (Close ws) w) in
    let left := fst (step (Message env ws (leave_room (Some u))) w) in
    let leftClosed := fst (step (Close ws) left) in
    storage closed = storage leftClosed
    /\ storage closed = leaveGameRoom r u (storage w)
    /\ closed = leftClosed.
Proof.
  intros env ws u r player w Hget Hfind Hroom Hr closed left leftClosed.
  apply String.eqb_neq in Hr.
  assert (Hclosed : closed
          = mkWorld (leaveGameRoom r u (storage w))
              (JsMap.delete u (connectedPlayers w)) (ws :: notOpen w)).
  { subst closed. simpl. unfold on_close. simpl.
    rewrite Hfind, Hroom, Hr. reflexivity. }
  assert (Hleft : left
          = mkWorld (leaveGameRoom r u (storage w))
              (JsMap.set u (Player.with_roomId None player) (connectedPlayers w))
              (notOpen w)).
  { subst left. simpl. unfold on_leave_room. simpl.
    rewrite Hget, Hroom, Hr. reflexivity. }
  assert (HleftClosed : leftClosed = closed).
  { subst leftClosed. rewrite Hleft, Hclosed. simpl. unfold on_close. simpl.
    rewrite (find_holds_after_leave ws u player _ Hget Hfind). simpl.
    now rewrite delete_set_same. }
  rewrite HleftClosed. split; [reflexivity|].
  split; [now rewrite Hclosed | reflexivity].
Qed.

Lemma X26_close_cleans_up_like_leave_for_first_entry_witness :
  let w := fst (step (joinTrivia env2) triviaFor4) in
  storage (fst (step (Close connB) w))
  = storage (fst (step (Close connB)
                    (fst (step (Message env3 connB (leave_room (Some "u2"))) w)))).
Proof.
  assert (Hr : "room-1" <> "") by discriminate.
  exact (proj1 (X26_close_cleans_up_like_leave_for_first_entry env3 connB "u2" "room-1"
                  (Player.mk connB "u2" (Some "room-1"))
                  (fst (step (joinTrivia env2) triviaFor4))
                  eq_refl eq_refl eq_refl Hr)).
Defined.

(** ** The registry in reachable worlds *)

Lemma step_registered e w :
  (forall k player, In (k, player) (connectedPlayers w) ->
                    registeredPlayer k player) ->
  forall k player, In (k, player) (connectedPlayers (fst (step e w))) ->
                   registeredPlayer k player.
Proof.
  intros Hall.
  assert (Hset : forall u r k player,
             In (k, player) (setPlayerRoom u r (connectedPlayers w)) ->
             registeredPlayer k player).
  { intros u r k player. unfold setPlayerRoom.
    destruct (JsMap.get u (connectedPlayers w)) as [p|] eqn:E; [|apply Hall].
    intros Hin. apply In_set_inv in Hin as [[= -> ->]|Hin]; [|now apply Hall].
    apply get_In in E. apply Hall in E. exact E. }
  destruct e as [env ws f|ws]; simpl.
  - destruct f; simpl; try exact Hall.
    + unfold on_join_lobby. destruct userId as [u|]; [|exact Hall].
      destruct (String.eqb_spec u ""); [exact Hall|]. simpl.
      intros k player Hin.
      apply In_set_inv in Hin as [[= -> ->]|Hin]; [|now apply Hall].
      now split.
    + unfold on_create_room. destruct userId as [u|]; [|exact Hall].
      destruct (u =? "")%string; [exact Hall|]. simpl. apply Hset.
    + unfold on_join_room.
      destruct roomId as [r|], userId as [u|]; try exact Hall.
      simpl. apply Hset.
    + unfold on_leave_room. destruct userId as [u|]; simpl; [|exact Hall].
      destruct (JsMap.get u (connectedPlayers w)) as [p|] eqn:E; [|exact Hall].
      destruct (Player.roomId p) as [r|]; [|exact Hall].
      destruct (r =? "")%string; [exact Hall|]. simpl.
      intros k player Hin.
      apply In_set_inv in Hin as [[= -> ->]|Hin]; [|now apply Hall].
      apply get_In in E. apply Hall in E. exact E.
  - unfold on_close. simpl.
    destruct (find (holds ws) (connectedPlayers w)) as [[u p]|]; [|exact Hall].
    intros k player Hin.
    assert (Hin' : In (k, player) (JsMap.delete u (connectedPlayers w))).
    { destruct (Player.roomId p) as [r|]; [|exact Hin].
      destruct (r =? "")%string; exact Hin. }
    apply In_delete in Hin'. now apply Hall.
Qed.

(** X5.  In every world reachable from a start of the server, every registry
    entry is stored under its own, non-empty userId, no two entries have the
    same userId, and looking up the userId of an entry gives that entry. *)
Theorem X5_registry_entries_keyed_by_their_userId :
  forall st0 w,
    reachable st0 w ->
    NoDup (map fst (connectedPlayers w))
    /\ forall k player,
         In (k, player) (connectedPlayers w) ->
         Player.userId player = k /\ k <> ""
         /\ JsMap.get k (connectedPlayers w) = Some player.
Proof.
  intros st0 w Hreach.
  assert (Hnd : NoDup (map fst (connectedPlayers w)))
    by now apply (reachable_unique st0).
  split; [exact Hnd|].
  assert (Hall : forall k player, In (k, player) (connectedPlayers w) ->
                                  registeredPlayer k player).
  { clear Hnd. induction Hreach as [|w e _ IH]; [intros k player []|].
    now apply step_registered. }
  intros k player Hin. destruct (Hall k player Hin) as [H1 H2].
  repeat split; try assumption. now apply NoDup_keys_get.
Qed.

Lemma X5_registry_entries_keyed_by_their_userId_witness :
  NoDup (map fst (connectedPlayers twoNames))
  /\ JsMap.get "u1" (connectedPlayers twoNames)
     = Some (Player.mk connA "u1" (Some "room-1")).
Proof.
  assert (Hreach : reachable emptyStorage twoNames)
    by apply run_reachable, reachable_start.
  destruct (X5_registry_entries_keyed_by_their_userId _ _ Hreach) as [Hnd Hall].
  split; [exact Hnd|].
  apply (Hall "u1" (Player.mk connA "u1" (Some "room-1"))).
  vm_compute. right. now left.
Defined.

(** ** What the coordinator keeps of the stored rooms *)

Section RoomsAll.
Variable P : string -> GameRoom.t -> Prop.
Hypothesis P_count : forall k room n,
  P k room -> P k (GameRoom.with_currentPlayers n room).

Lemma addParticipant_roomsAll uuid now r u st :
  roomsAll P st -> roomsAll P (fst (addParticipant uuid now r u st)).
Proof.
  intros H k room. unfold addParticipant. simpl.
  destruct (JsMap.get r (gameRooms st)) as [found|] eqn:E; [|apply H].
  intros Hin. apply In_set_inv in Hin as [[= -> ->]|Hin]; [|now apply H].
  apply P_count. apply H. now apply get_In.
Qed.

Lemma removeParticipant_roomsAll r u st :
  roomsAll P st -> roomsAll P (removeParticipant r u st).
Proof.
  intros H k room. unfold removeParticipant.
  destruct (find _ _); [|apply H]. simpl.
  destruct (JsMap.get r (gameRooms st)) as [found|] eqn:E; [|apply H].
  intros Hin. apply In_set_inv in Hin as [[= -> ->]|Hin]; [|now apply H].
  apply P_count. apply H. now apply get_In.
Qed.

Hypothesis P_created : forall uuid name u x config now,
  u <> "" ->
  P uuid (GameRoom.mk uuid name u "waiting" (Z.max 2 (Z.min x 16)) 1 config
            None 0 (Date now) None None).

Lemma step_roomsAll e w :
  roomsAll P (storage w) -> roomsAll P (storage (fst (step e w))).
Proof.
  intros H. destruct e as [env ws f|ws]; simpl.
  - destruct f; simpl; try exact H.
    + unfold on_join_lobby. destruct userId as [u|]; [|exact H].
      destruct (u =? "")%string; exact H.
    + unfold on_create_room. destruct userId as [u|]; [|exact H].
      destruct (String.eqb_spec u ""); [exact H|]. simpl.
      unfold joinGameRoom. apply addParticipant_roomsAll.
      intros k room Hin. simpl in Hin.
      apply In_set_inv in Hin as [[= -> ->]|Hin]; [|now apply H].
      rewrite clamp_not_zero. now apply P_created.
    + unfold on_join_room.
      destruct roomId as [r|], userId as [u|]; try exact H.
      simpl. unfold joinGameRoom. now apply addParticipant_roomsAll.
    + unfold on_leave_room. destruct userId as [u|]; simpl; [|exact H].
      destruct (JsMap.get u (connectedPlayers w)) as [p|]; [|exact H].
      destruct (Player.roomId p) as [r|]; [|exact H].
      destruct (r =? "")%string; [exact H|]. simpl.
      now apply removeParticipant_roomsAll.
  - unfold on_close. simpl.
    destruct (find (holds ws) (connectedPlayers w)) as [[u p]|]; [|exact H].
    destruct (Player.roomId p) as [r|]; [|exact H].
    destruct (r =? "")%string; [exact H|]. simpl.
    now apply removeParticipant_roomsAll.
Qed.
End RoomsAll.

(** X6.  Let the server start with a repository whose rooms all came from the
    coordinator (the empty one, for instance).  In every reachable world
    every stored room carries the id it is stored under, has status
    "waiting", a [maxPlayers] within [2, 16] and a non-empty host: the
    coordinator never starts, finishes or hides a room, and every stored
    room passes the filter of [getGameRooms], whatever its player count.  If
    moreover the rooms the server started with hold a [Date] (none was read
    back from the data file), [getGameRooms] returns, and lists all stored
    rooms. *)
Theorem X6_rooms_stay_waiting_and_listed :
  forall st0 w,
    (forall k room, In (k, room) (gameRooms st0) -> coordinatorRoom k room) ->
    reachable st0 w ->
    let stored := map snd (gameRooms (storage w)) in
    (forall k room, In (k, room) (gameRooms (storage w)) ->
                    coordinatorRoom k room)
    /\ filter isWaiting stored = stored
    /\ ((forall k room, In (k, room) (gameRooms st0) ->
                        isDate (GameRoom.createdAt room) = true) ->
        exists rooms, getGameRooms (storage w) = Some rooms
                      /\ Permutation rooms stored).
Proof.
  intros st0 w Hstart Hreach stored.
  assert (Hinv : forall P : string -> GameRoom.t -> Prop,
             (forall k room n, P k room ->
                               P k (GameRoom.with_currentPlayers n room)) ->
             (forall uuid name u x config now, u <> "" ->
                P uuid (GameRoom.mk uuid name u "waiting"
                          (Z.max 2 (Z.min x 16)) 1 config None 0 (Date now)
                          None None)) ->
             roomsAll P st0 -> roomsAll P (storage w)).
  { intros P Hcount Hcreated H0.
    induction Hreach as [|w e _ IH]; [exact H0|].
    now apply step_roomsAll. }
  assert (Hall : roomsAll coordinatorRoom (storage w)).
  { apply Hinv; [| |exact Hstart].
    - intros k room n (H1 & H2 & H3 & H4). now repeat split.
    - intros uuid name u x config now Hu. repeat split; simpl; try lia.
      assumption. }
  assert (Hfilter : filter isWaiting stored = stored).
  { subst stored. revert Hall. unfold roomsAll.
    induction (gameRooms (storage w)) as [|[k room] l IH]; intros Hl;
      [reflexivity|]. simpl.
    destruct (Hl k room (or_introl eq_refl)) as (_ & Hstatus & _).
    unfold isWaiting at 1. rewrite Hstatus. simpl.
    f_equal. apply IH. intros k' room' Hin. apply Hl. now right. }
  split; [exact Hall|]. split; [exact Hfilter|].
  intros Hdates.
  assert (Hd : roomsAll (fun _ room => isDate (GameRoom.createdAt room) = true)
                 (storage w)).
  { apply Hinv; [| |exact Hdates].
    - intros k room n H. exact H.
    - reflexivity. }
  unfold getGameRooms, JsMap.values. fold stored. rewrite Hfilter.
  destruct (array_sort_defined newestFirst stored) as [rooms E].
  - intros a b Ha Hb.
    subst stored. apply in_map_iff in Ha as [[ka a'] [<- Ha]].
    apply in_map_iff in Hb as [[kb b'] [<- Hb]].
    unfold newestFirst.
    rewrite timeDifference_dates;
      [discriminate | exact (Hd kb b' Hb) | exact (Hd ka a' Ha)].
  - exists rooms. split; [exact E|]. now apply array_sort_perm in E.
Qed.

Lemma X6_rooms_stay_waiting_and_listed_witness :
  let w := run [createTrivia (Some 2); joinTrivia env2; Close connB;
                Message env3 connA (leave_room (Some "u1"))] lobbyAB in
  exists rooms, getGameRooms (storage w) = Some rooms
                /\ Permutation rooms (map snd (gameRooms (storage w))).
Proof.
  assert (Hstart : forall k room, In (k, room) (gameRooms emptyStorage) ->
                                  coordinatorRoom k room)
    by (intros k room []).
  assert (Hreach : reachable emptyStorage
            (run [createTrivia (Some 2); joinTrivia env2; Close connB;
                  Message env3 connA (leave_room (Some "u1"))] lobbyAB))
    by apply run_reachable, run_reachable, reachable_start.
  apply (proj2 (proj2 (X6_rooms_stay_waiting_and_listed _ _ Hstart Hreach))).
  intros k room [].
Defined.

Lemma addParticipant_keeps_room uuid now r u st k room :
  getGameRoom k st = Some room ->
  exists room', getGameRoom k (fst (addParticipant uuid now r u st)) = Some room'
                /\ sameRoomButCount room room'.
Proof.
  unfold getGameRoom, addParticipant. simpl. intros Hk.
  destruct (JsMap.get r (gameRooms st)) as [found|] eqn:E;
    [|exists room; now split].
  destruct (String.eqb_spec k r) as [->|Hne].
  - rewrite get_set_same. eexists. split; [reflexivity|].
    assert (found = room) by congruence. subst found. reflexivity.
  - rewrite get_set_other by assumption. exists room. now split.
Qed.

Lemma removeParticipant_keeps_room r u st k room :
  getGameRoom k st = Some room ->
  exists room', getGameRoom k (removeParticipant r u st) = Some room'
                /\ sameRoomButCount room room'.
Proof.
  unfold getGameRoom, removeParticipant. intros Hk.
  destruct (find _ _); [|exists room; now split]. simpl.
  destruct (JsMap.get r (gameRooms st)) as [found|] eqn:E;
    [|exists room; now split].
  destruct (String.eqb_spec k r) as [->|Hne].
  - rewrite get_set_same. eexists. split; [reflexivity|].
    assert (found = room) by congruence. subst found. reflexivity.
  - rewrite get_set_other by assumption. exists room. now split.
Qed.

(** The repository after one event: unchanged, or one participant added, or
    one removed, or a room created and its host added. *)
Lemma step_storage_cases e w :
  storage (fst (step e w)) = storage w
  \/ (exists env ws r u,
        e = Message env ws (join_room (Some r) (Some u))
        /\ storage (fst (step e w))
           = fst (addParticipant (participantUuid env) (participantDate env)
                    r u (storage w)))
  \/ (exists r u, storage (fst (step e w)) = removeParticipant r u (storage w))
  \/ (exists env ws u roomName maxPlayers config,
        e = Message env ws (create_room (Some u) roomName maxPlayers config)
        /\ u <> ""
        /\ storage (fst (step e w))
           = fst (addParticipant (participantUuid env) (participantDate env)
                    (roomUuid env) u
                    (fst (createGameRoom (roomUuid env) (roomDate env)
                            (mkInsertGameRoom
                               match roomName with
                               | Some s => substring 0 80 s
                               | None => "Room"
                               end u
                               (Z.max 2 (Z.min (number_or maxPlayers 8) 16))
                               config) (storage w))))).
Proof.
  destruct e as [env ws f|ws]; simpl.
  - destruct f; simpl; try now left.
    + unfold on_join_lobby. destruct userId as [u|]; [|now left].
      destruct (u =? "")%string; now left.
    + unfold on_create_room. destruct userId as [u|]; [|now left].
      destruct (String.eqb_spec u ""); [now left|].
      right. right. right.
      exists env, ws, u, roomName, maxPlayers, config.
      split; [reflexivity|]. split; [assumption | reflexivity].
    + unfold on_join_room.
      destruct roomId as [r|], userId as [u|]; try now left.
      right. left. exists env, ws, r, u. split; reflexivity.
    + unfold on_leave_room. destruct userId as [u|]; simpl; [|now left].
      destruct (JsMap.get u (connectedPlayers w)) as [p|]; [|now left].
      destruct (Player.roomId p) as [r|]; [|now left].
      destruct (r =? "")%string; [now left|].
      right. right. left. now exists r, u.
  - unfold on_close. simpl.
    destruct (find (holds ws) (connectedPlayers w)) as [[u p]|]; [|now left].
    destruct (Player.roomId p) as [r|]; [|now left].
    destruct (r =? "")%string; [now left|].
    right. right. left. now exists r, u.
Qed.

(** X7.  No transport event deletes a room: a room stored under an id is
    still stored under it after any event.  Unless the event is a
    [create_room] whose generated room id is that very id, the room is also
    unchanged in every field but [currentPlayers]. *)
Theorem X7_rooms_are_never_deleted :
  forall e w k room,
    getGameRoom k (storage w) = Some room ->
    (exists room', getGameRoom k (storage (fst (step e w))) = Some room')
    /\ ((forall env ws a b c d,
           e = Message env ws (create_room a b c d) -> roomUuid env <> k) ->
        exists room', getGameRoom k (storage (fst (step e w))) = Some room'
                      /\ sameRoomButCount room room').
Proof.
  intros e w k room Hk.
  destruct (step_storage_cases e w)
    as [H|[(env & ws & r & u & _ & H)|[(r & u & H)|H]]].
  - rewrite H. split; [now exists room | intros _; exists room; now split].
  - rewrite H.
    destruct (addParticipant_keeps_room (participantUuid env)
                (participantDate env) r u (storage w) k room Hk)
      as (room' & Hget & Hsame).
    split; [now exists room' | intros _; exists room'; now split].
  - rewrite H.
    destruct (removeParticipant_keeps_room r u (storage w) k room Hk)
      as (room' & Hget & Hsame).
    split; [now exists room' | intros _; exists room'; now split].
  - destruct H as (env & ws & u & roomName & maxPlayers & config & -> & _ & H).
    rewrite H. split.
    + assert (H1 : exists r1,
                getGameRoom k
                  (fst (createGameRoom (roomUuid env) (roomDate env)
                          (mkInsertGameRoom
                             match roomName with
                             | Some s => substring 0 80 s
                             | None => "Room"
                             end u
                             (Z.max 2 (Z.min (number_or maxPlayers 8) 16))
                             config) (storage w))) = Some r1).
      { unfold getGameRoom in *. simpl.
        destruct (String.eqb_spec k (roomUuid env)) as [->|Hne].
        - rewrite get_set_same. now eexists.
        - rewrite get_set_other by assumption. now exists room. }
      destruct H1 as [r1 H1].
      destruct (addParticipant_keeps_room (participantUuid env)
                  (participantDate env) (roomUuid env) u _ k r1 H1)
        as (room' & Hget & _).
      now exists room'.
    + intros Hfresh. specialize (Hfresh env ws _ _ _ _ eq_refl).
      apply addParticipant_keeps_room.
      unfold getGameRoom in *. simpl.
      rewrite get_set_other by congruence. exact Hk.
Qed.

Lemma X7_rooms_are_never_deleted_witness :
  exists room',
    getGameRoom "room-1"
      (storage (fst (step (Message env3 connA (leave_room (Some "u1")))
                       triviaFor4))) = Some room'
    /\ GameRoom.name room' = "Trivia Night".
Proof.
  destruct (X7_rooms_are_never_deleted
              (Message env3 connA (leave_room (Some "u1"))) triviaFor4
              "room-1"
              (GameRoom.mk "room-1" "Trivia Night" "u1" "waiting" 4 2 None
                 None 0 (Date 1000) None None) eq_refl) as [_ Hsame].
  destruct Hsame as (room' & Hget & Hrest); [discriminate|].
  exists room'. split; [exact Hget|].
  apply (f_equal GameRoom.name) in Hrest. simpl in Hrest. now symmetry.
Defined.

(** ** The player count against the participant rows *)

Lemma In_set_NoDup {V} k (v : V) m k' v' :
  NoDup (map fst m) ->
  In (k', v') (JsMap.set k v m) ->
  (k' = k /\ v' = v) \/ (k' <> k /\ In (k', v') m).
Proof.
  induction m as [|[k0 v0] m IH]; simpl; intros Hnd Hin.
  - destruct Hin as [[= <- <-]|[]]. now left.
  - inversion Hnd as [|? ? Hnotin Hnd']; subst.
    destruct (String.eqb_spec k0 k) as [->|Hne]; simpl in Hin.
    + destruct Hin as [[= <- <-]|Hin]; [now left|].
      right. split; [|now right].
      intros ->. apply Hnotin. now apply (in_map fst) in Hin.
    + destruct Hin as [[= <- <-]|Hin].
      * right. split; [assumption | now left].
      * destruct (IH Hnd' Hin) as [H|[H1 H2]]; [now left|].
        right. split; [assumption | now right].
Qed.

Lemma get_None_not_In {V} k (v : V) m : JsMap.get k m = None -> ~ In (k, v) m.
Proof.
  induction m as [|[k0 v0] m IH]; simpl; [tauto|].
  destruct (String.eqb_spec k0 k) as [->|Hne]; [discriminate|].
  intros Hget [[= -> _]|Hin]; [congruence | now apply IH].
Qed.

Lemma filter_values_delete {V} (f : V -> bool) k v m :
  NoDup (map fst m) ->
  In (k, v) m ->
  List.length (filter f (JsMap.values m))
  = ((if f v then 1 else 0)
     + List.length (filter f (JsMap.values (JsMap.delete k m))))%nat.
Proof.
  induction m as [|[k0 v0] m IH]; simpl; [tauto|].
  intros Hnd Hin. inversion Hnd as [|? ? Hnotin Hnd']; subst.
  destruct (String.eqb_spec k0 k) as [->|Hne].
  - destruct Hin as [[= ->]|Hin].
    + destruct (f v); reflexivity.
    + exfalso. apply Hnotin. now apply (in_map fst) in Hin.
  - destruct Hin as [[= -> _]|Hin]; [congruence|].
    simpl. specialize (IH Hnd' Hin).
    destruct (f v0); simpl; rewrite IH; destruct (f v); lia.
Qed.

Lemma consistent_count st k room :
  consistent st ->
  In (k, room) (gameRooms st) ->
  GameRoom.currentPlayers room
  = Z.of_nat (List.length (participantsOf k st)) + 1.
Proof. intros (_ & _ & _ & H). apply H. Qed.

Lemma createGameRoom_consistent uuid now room st :
  consistent st ->
  JsMap.get uuid (gameRooms st) = None ->
  participantsOf uuid st = [] ->
  consistent (fst (createGameRoom uuid now room st)).
Proof.
  intros (Hrooms & Hparts & Hkeyed & Hcount) Hfresh Hnone.
  unfold consistent, createGameRoom. simpl.
  split; [now apply NoDup_keys_set|]. split; [assumption|].
  split; [exact Hkeyed|].
  intros k stored Hin. simpl in Hin.
  apply In_set_NoDup in Hin as [[-> ->]|[_ Hin]]; try assumption.
  - unfold participantsOf in *. simpl. now rewrite Hnone.
  - unfold participantsOf. simpl. now apply Hcount.
Qed.

Lemma addParticipant_consistent uuid now r u st :
  consistent st ->
  JsMap.get uuid (gameParticipants st) = None ->
  consistent (fst (addParticipant uuid now r u st)).
Proof.
  intros (Hrooms & Hparts & Hkeyed & Hcount) Hfresh.
  assert (Hrows : forall k,
    List.length (participantsOf k (fst (addParticipant uuid now r u st)))
    = (List.length (participantsOf k st)
       + (if (r =? k)%string then 1 else 0))%nat).
  { intros k. unfold participantsOf, addParticipant. simpl.
    rewrite values_set_fresh by assumption.
    rewrite filter_app, List.length_app. simpl.
    destruct (r =? k)%string; reflexivity. }
  split; [|split; [|split]].
  - unfold addParticipant. simpl.
    destruct (JsMap.get r (gameRooms st)); [now apply NoDup_keys_set|assumption].
  - unfold addParticipant. simpl. now apply NoDup_keys_set.
  - intros k row Hin. unfold addParticipant in Hin. simpl in Hin.
    apply In_set_inv in Hin as [[= -> ->]|Hin]; [reflexivity|now apply Hkeyed].
  - intros k stored Hin. rewrite Hrows.
    unfold addParticipant in Hin. simpl in Hin.
    destruct (JsMap.get r (gameRooms st)) as [room|] eqn:E.
    + apply In_set_NoDup in Hin as [[-> ->]|[Hne Hin]]; try assumption.
      * apply get_In in E. apply Hcount in E. simpl.
        rewrite String.eqb_refl, or_default_zero. lia.
      * apply Hcount in Hin.
        destruct (String.eqb_spec r k); [congruence | lia].
    + destruct (String.eqb_spec r k) as [->|Hne].
      * exfalso. now apply (get_None_not_In _ _ _ E) in Hin.
      * apply Hcount in Hin. lia.
Qed.

Lemma removeParticipant_consistent r u st :
  consistent st -> consistent (removeParticipant r u st).
Proof.
  intros (Hrooms & Hparts & Hkeyed & Hcount).
  unfold removeParticipant.
  destruct (find (isMembership r u) (JsMap.values (gameParticipants st)))
    as [row|] eqn:Efind; [|now repeat split].
  apply find_some in Efind as [Hin Hmember].
  unfold isMembership in Hmember. apply andb_true_iff in Hmember as [Hroom _].
  apply String.eqb_eq in Hroom.
  unfold JsMap.values in Hin. apply in_map_iff in Hin as [[k row'] [Heq Hin]].
  simpl in Heq. subst row'.
  assert (Hk : GameParticipant.id row = k) by now apply Hkeyed.
  rewrite Hk.
  assert (Hrows : forall k' rooms,
    List.length (participantsOf k' st)
    = ((if (r =? k')%string then 1 else 0)
       + List.length (participantsOf k'
           (mkStorage rooms (JsMap.delete k (gameParticipants st)))))%nat).
  { intros k' rooms. unfold participantsOf. simpl.
    rewrite (filter_values_delete _ k row) by assumption.
    now rewrite Hroom. }
  split; [|split; [|split]]; simpl.
  - destruct (JsMap.get r (gameRooms st)); [now apply NoDup_keys_set|assumption].
  - now apply NoDup_keys_delete.
  - intros k' row' Hin'. apply In_delete in Hin'. now apply Hkeyed.
  - intros k' stored Hin'.
    destruct (JsMap.get r (gameRooms st)) as [room|] eqn:E.
    + apply In_set_NoDup in Hin' as [[-> ->]|[Hne Hin']]; try assumption.
      * apply get_In in E. apply Hcount in E. simpl.
        rewrite (Hrows r (JsMap.set r
                   (GameRoom.with_currentPlayers
                      (Z.max 0 (or_default (GameRoom.currentPlayers room) 0 - 1))
                      room) (gameRooms st))) in E.
        rewrite String.eqb_refl in E. rewrite or_default_zero in *. lia.
      * apply Hcount in Hin'.
        rewrite (Hrows k' (JsMap.set r
                   (GameRoom.with_currentPlayers
                      (Z.max 0 (or_default (GameRoom.currentPlayers room) 0 - 1))
                      room) (gameRooms st))) in Hin'.
        destruct (String.eqb_spec r k'); [congruence | lia].
    + pose proof (Hcount _ _ Hin') as Hc.
      rewrite (Hrows k' (gameRooms st)) in Hc.
      destruct (String.eqb_spec r k') as [->|Hne]; [|lia].
      exfalso. now apply (get_None_not_In _ _ _ E) in Hin'.
Qed.

Lemma step_consistent e w :
  consistent (storage w) -> freshEvent e w ->
  consistent (storage (fst (step e w))).
Proof.
  intros Hc Hfresh.
  destruct (step_storage_cases e w)
    as [H|[(env & ws & r & u & -> & H)|[(r & u & H)|H]]].
  - now rewrite H.
  - rewrite H. now apply addParticipant_consistent.
  - rewrite H. now apply removeParticipant_consistent.
  - destruct H as (env & ws & u & roomName & maxPlayers & config & -> & _ & H).
    rewrite H. destruct Hfresh as (Hroom & Hrows & Hrow).
    apply addParticipant_consistent; [|exact Hrow].
    now apply createGameRoom_consistent.
Qed.

(** X9.  Start from a repository in which participant ids are unique, every
    row carries its id, and every room counts one player more than it has
    participant rows (the empty repository is one), and let every generated
    id be new when it is generated.  Then after any run of frames and close
    events every stored room has
    [currentPlayers = number of its participant rows + 1]; in particular the
    count is at least 1 and the floor of [removeParticipant] is never
    reached. *)
Theorem X9_count_stays_one_above_rows :
  forall events w,
    consistent (storage w) ->
    freshRun events w ->
    consistent (storage (run events w))
    /\ forall k room,
         getGameRoom k (storage (run events w)) = Some room ->
         GameRoom.currentPlayers room
         = Z.of_nat (List.length (participantsOf k (storage (run events w)))) + 1
         /\ 1 <= GameRoom.currentPlayers room.
Proof.
  assert (Hrun : forall events w,
             consistent (storage w) -> freshRun events w ->
             consistent (storage (run events w))).
  { induction events as [|e events IH]; intros w Hc Hfresh; [exact Hc|].
    destruct Hfresh as [He Hrest]. simpl. apply IH; [|exact Hrest].
    now apply step_consistent. }
  intros events w Hc Hfresh. specialize (Hrun events w Hc Hfresh).
  split; [exact Hrun|].
  intros k room Hget. apply get_In in Hget.
  pose proof (consistent_count _ _ _ Hrun Hget) as H. split; [exact H | lia].
Qed.

Lemma X9_count_stays_one_above_rows_witness :
  let events := [Message env1 connA (join_lobby (Some "u1"));
                 Message env1 connB (join_lobby (Some "u2"));
                 createTrivia (Some 4); joinTrivia env2;
                 Message env3 connB (leave_room (Some "u2"))] in
  option_map GameRoom.currentPlayers
    (getGameRoom "room-1" (storage (run events initWorld))) = Some 2
  /\ Z.of_nat (List.length (participantsOf "room-1"
                             (storage (run events initWorld)))) + 1 = 2.
Proof.
  assert (Hc : consistent (storage initWorld)).
  { repeat split; try constructor; intros k x []. }
  assert (Hfresh : freshRun
            [Message env1 connA (join_lobby (Some "u1"));
             Message env1 connB (join_lobby (Some "u2"));
             createTrivia (Some 4); joinTrivia env2;
             Message env3 connB (leave_room (Some "u2"))] initWorld).
  { simpl. repeat split; reflexivity. }
  destruct (X9_count_stays_one_above_rows _ _ Hc Hfresh) as [_ Hcount].
  split; [reflexivity|].
  destruct (Hcount "room-1"
              (GameRoom.mk "room-1" "Trivia Night" "u1" "waiting" 4 2 None
                 None 0 (Date 1000) None None) eq_refl) as [H _].
  simpl in H. symmetry. exact H.
Defined.

(** ** Listings of the repository *)

(** X10.  [getParticipants] throws exactly when the room has two or more
    rows one of which was read back from the data file (its [joinedAt] is
    text).  Otherwise it returns the rows of the room and no others, each as
    often as it is stored, ordered by [joinedAt] from the oldest to the
    newest. *)
Theorem X10_getParticipants_oldest_first :
  forall roomId st,
    let stored :=
      filter (fun row => (GameParticipant.roomId row =? roomId)%string)
             (map snd (gameParticipants st)) in
    let unreadable :=
      (2 <= List.length stored)%nat
      /\ exists row, In row stored
                     /\ isDate (GameParticipant.joinedAt row) = false in
    match getParticipants roomId st with
    | None => unreadable
    | Some rows =>
        ~ unreadable
        /\ Permutation rows stored
        /\ (forall row, In row rows <->
                        In row (map snd (gameParticipants st))
                        /\ GameParticipant.roomId row = roomId)
        /\ StronglySorted
             (fun a b => notLater (GameParticipant.joinedAt a)
                                  (GameParticipant.joinedAt b))
             rows
    end.
Proof.
  intros roomId st stored unreadable.
  pose proof (array_sort_throws GameParticipant.joinedAt oldestFirst
                oldestFirst_throws stored) as Hthrows.
  unfold getParticipants, JsMap.values. fold stored.
  destruct (array_sort oldestFirst stored) as [rows|] eqn:E;
    [|now apply Hthrows].
  assert (Hperm : Permutation rows stored) by now apply array_sort_perm in E.
  split; [|split; [exact Hperm|split]].
  - intros H. apply Hthrows in H. discriminate.
  - intros row. split.
    + intros Hin. apply (Permutation_in _ Hperm) in Hin.
      apply filter_In in Hin as [Hin Hr]. split; [assumption|].
      now apply String.eqb_eq in Hr.
    + intros [Hin Hr]. apply (Permutation_in _ (Permutation_sym Hperm)).
      apply filter_In. split; [assumption|]. now apply String.eqb_eq.
  - apply (array_sort_sorted oldestFirst) with (l := stored); [| | |exact E].
    + intros x y c. apply timeDifference_before.
    + intros x y c. apply timeDifference_after.
    + intros x y z. apply notLater_trans.
Qed.

Lemma byQuestionThenTime_before a b c :
  byQuestionThenTime a b = Some c -> c <= 0 -> byQuestionThenDate a b.
Proof.
  unfold byQuestionThenTime, byQuestionThenDate.
  destruct (Z.eqb_spec (GameResult.questionIndex a - GameResult.questionIndex b) 0).
  - intros H Hc. right. split; [lia|]. now apply timeDifference_before with c.
  - intros [= <-] Hc. left. lia.
Qed.

Lemma byQuestionThenTime_after a b c :
  byQuestionThenTime a b = Some c -> 0 < c -> byQuestionThenDate b a.
Proof.
  unfold byQuestionThenTime, byQuestionThenDate.
  destruct (Z.eqb_spec (GameResult.questionIndex a - GameResult.questionIndex b) 0).
  - intros H Hc. right. split; [lia|]. now apply timeDifference_after with c.
  - intros [= <-] Hc. left. lia.
Qed.

Lemma byQuestionThenDate_trans a b c :
  byQuestionThenDate a b -> byQuestionThenDate b c -> byQuestionThenDate a c.
Proof.
  unfold byQuestionThenDate. intros [H1|[H1 H1']] [H2|[H2 H2']].
  - left. lia.
  - left. lia.
  - left. lia.
  - right. split; [lia|]. now apply notLater_trans with (GameResult.createdAt b).
Qed.

Lemma byQuestionThenTime_dates a b :
  isDate (GameResult.createdAt a) = true ->
  isDate (GameResult.createdAt b) = true ->
  byQuestionThenTime a b <> None.
Proof.
  intros Ha Hb. unfold byQuestionThenTime.
  destruct (_ =? 0); [|discriminate].
  now rewrite timeDifference_dates.
Qed.

(** X11.  Whenever [getGameResults] returns, it returns the results of the
    room and no others, ordered by question index and, within one question,
    by creation time.  It returns when the results of the room hold a
    [Date] (none was read back from the data file); a result then added
    with a new id appears in the listing of its room, and an added result
    leaves the listings of the other rooms as they were. *)
Theorem X11_getGameResults_by_question_then_time :
  forall roomId t,
    let stored :=
      filter (fun result => (GameResult.roomId result =? roomId)%string)
             (map snd (gameResults t)) in
    (forall results, getGameResults roomId t = Some results ->
       Permutation results stored
       /\ (forall result, In result results <->
                          In result (map snd (gameResults t))
                          /\ GameResult.roomId result = roomId)
       /\ StronglySorted byQuestionThenDate results)
    /\ ((forall result, In result stored ->
                        isDate (GameResult.createdAt result) = true) ->
        (exists results, getGameResults roomId t = Some results)
        /\ forall uuid now new,
             JsMap.get uuid (gameResults t) = None ->
             res_roomId new = roomId ->
             let added := addGameResult uuid now new t in
             exists results, getGameResults roomId (fst added) = Some results
                             /\ In (snd added) results)
    /\ (forall uuid now new,
          JsMap.get uuid (gameResults t) = None ->
          res_roomId new <> roomId ->
          getGameResults roomId (fst (addGameResult uuid now new t))
          = getGameResults roomId t).
Proof.
  intros roomId t stored.
  assert (Hperm : forall t0 results,
    getGameResults roomId t0 = Some results ->
    Permutation results
      (filter (fun result => (GameResult.roomId result =? roomId)%string)
              (map snd (gameResults t0))))
    by (intros t0 results H; now apply array_sort_perm in H).
  assert (Hdefined : forall l,
    (forall result, In result l ->
                    isDate (GameResult.createdAt result) = true) ->
    exists results, array_sort byQuestionThenTime l = Some results).
  { intros l Hl. apply array_sort_defined. intros x y Hx Hy.
    apply byQuestionThenTime_dates; now apply Hl. }
  split; [|split].
  - intros results E. pose proof (Hperm t results E) as Hp.
    split; [exact Hp|]. split.
    + intros result. split.
      * intros Hin. apply (Permutation_in _ Hp) in Hin.
        apply filter_In in Hin as [Hin Hr]. split; [assumption|].
        now apply String.eqb_eq in Hr.
      * intros [Hin Hr]. apply (Permutation_in _ (Permutation_sym Hp)).
        apply filter_In. split; [assumption|]. now apply String.eqb_eq.
    + apply (array_sort_sorted byQuestionThenTime) with (l := stored);
        [| | |exact E].
      * apply byQuestionThenTime_before.
      * apply byQuestionThenTime_after.
      * apply byQuestionThenDate_trans.
  - intros Hdates. split; [now apply Hdefined|].
    intros uuid now new Hfresh Hroom added.
    assert (Hstored' :
      filter (fun result => (GameResult.roomId result =? roomId)%string)
             (map snd (gameResults (fst added)))
      = stored ++ [snd added]).
    { subst added stored. simpl.
      change (map snd (JsMap.set uuid ?v ?m)) with (JsMap.values (JsMap.set uuid v m)).
      rewrite values_set_fresh by assumption.
      rewrite filter_app. simpl. rewrite Hroom, String.eqb_refl. reflexivity. }
    destruct (Hdefined (stored ++ [snd added])) as [results E].
    { intros result Hin. apply in_app_or in Hin as [Hin|[<-|[]]];
        [now apply Hdates | reflexivity]. }
    exists results. unfold getGameResults, JsMap.values.
    rewrite Hstored'. split; [exact E|].
    apply array_sort_perm in E.
    apply (Permutation_in _ (Permutation_sym E)).
    apply in_or_app. right. now left.
  - intros uuid now new Hfresh Hne. unfold getGameResults. simpl.
    rewrite values_set_fresh by assumption.
    rewrite filter_app. simpl.
    destruct (String.eqb_spec (res_roomId new) roomId); [congruence|].
    now rewrite app_nil_r.
Qed.

Lemma X11_getGameResults_by_question_then_time_witness :
  exists results,
    getGameResults "room-1" sampleAnswers = Some results
    /\ map GameResult.id results = ["g2"; "g1"].
Proof.
  destruct (proj1 (proj2 (X11_getGameResults_by_question_then_time
                            "room-1" sampleAnswers))) as [[results E] _].
  - intros result [<-|[<-|[]]]; reflexivity.
  - exists results. split; [exact E|].
    vm_compute in E. injection E as <-. reflexivity.
Defined.

(** ** Updates of stored rooms and participants *)

Lemma listed_rooms_wait st rooms room :
  getGameRooms st = Some rooms -> In room rooms ->
  GameRoom.status room = "waiting".
Proof.
  intros E Hin. unfold getGameRooms in E. apply array_sort_perm in E.
  apply (Permutation_in _ E) in Hin.
  apply filter_In in Hin as [_ H]. now apply String.eqb_eq in H.
Qed.

(** X12.  [updateGameRoom] on an id that is not stored returns nothing and
    changes nothing.  On a stored id it stores and returns the merged room
    under the same id and at the same place, leaves every other room and all
    participants as they were, and changes nothing when the update carries no
    field; a room whose status is updated to anything but "waiting" does not
    pass the filter of [getGameRooms] and is in no list that [getGameRooms]
    returns any more. *)
Theorem X12_updateGameRoom_merges_one_room :
  forall id updates st,
    let result := updateGameRoom id updates st in
    match getGameRoom id st with
    | None => result = (st, None)
    | Some room =>
        exists updated,
          snd result = Some updated
          /\ getGameRoom id (fst result) = Some updated
          /\ (forall k, k <> id ->
              getGameRoom k (fst result) = getGameRoom k st)
          /\ map fst (gameRooms (fst result)) = map fst (gameRooms st)
          /\ gameParticipants (fst result) = gameParticipants st
          /\ (updates = GameRoomUpdates.none -> updated = room)
          /\ (forall s, GameRoomUpdates.status updates = Some s ->
              s <> "waiting" ->
              isWaiting updated = false
              /\ forall rooms, getGameRooms (fst result) = Some rooms ->
                               ~ In updated rooms)
    end.
Proof.
  intros id updates st result. subst result.
  unfold updateGameRoom, getGameRoom.
  destruct (JsMap.get id (gameRooms st)) as [room|] eqn:E; [|reflexivity].
  eexists. simpl. split; [reflexivity|].
  split; [apply get_set_same|].
  split; [intros k Hne; now apply get_set_other|].
  split; [now apply set_keys_present with (v0 := room)|].
  split; [reflexivity|]. split.
  - intros ->. destruct room. reflexivity.
  - intros s Hs Hne. split.
    + unfold isWaiting. simpl. rewrite Hs. simpl.
      now apply String.eqb_neq.
    + intros rooms Hrooms Hin.
      apply (listed_rooms_wait _ _ _ Hrooms) in Hin.
      simpl in Hin. rewrite Hs in Hin. simpl in Hin. congruence.
Qed.

(** X13.  [updateParticipant] on an id that is not stored returns nothing and
    changes nothing.  On a stored id it stores and returns the merged row
    under the same id, leaves every other row as it was and never touches a
    room: moving a row to another room this way changes no player count. *)
Theorem X13_updateParticipant_merges_one_row :
  forall id updates st,
    let result := updateParticipant id updates st in
    match JsMap.get id (gameParticipants st) with
    | None => result = (st, None)
    | Some row =>
        exists updated,
          snd result = Some updated
          /\ JsMap.get id (gameParticipants (fst result)) = Some updated
          /\ (forall k, k <> id ->
              JsMap.get k (gameParticipants (fst result))
              = JsMap.get k (gameParticipants st))
          /\ gameRooms (fst result) = gameRooms st
          /\ (updates = GameParticipantUpdates.none -> updated = row)
          /\ (forall r, GameParticipantUpdates.roomId updates = Some r ->
              GameParticipant.roomId updated = r)
    end.
Proof.
  intros id updates st result. subst result. unfold updateParticipant.
  destruct (JsMap.get id (gameParticipants st)) as [row|] eqn:E; [|reflexivity].
  eexists. simpl. split; [reflexivity|].
  split; [apply get_set_same|].
  split; [intros k Hne; now apply get_set_other|].
  split; [reflexivity|]. split.
  - intros ->. destruct row. reflexivity.
  - intros r Hr. now rewrite Hr.
Qed.

(** ** Users *)

Lemma find_snoc {A} (f : A -> bool) l x :
  find f (l ++ [x])
  = match find f l with
    | Some y => Some y
    | None => if f x then Some x else None
    end.
Proof.
  induction l as [|y l IH]; simpl; [reflexivity|].
  destruct (f y); [reflexivity | exact IH].
Qed.

Lemma string_or_not_empty s d : d <> "" -> string_or s d <> "".
Proof.
  intros Hd. unfold string_or. destruct s as [x|]; [|assumption].
  destruct (String.eqb_spec x ""); assumption.
Qed.

(** X14.  [createUser] with a new id: the user is found under the id, starts
    with a total score and a games count of 0 and a non-empty avatar (the
    default one when none or an empty one was given), and no other id is
    affected.  Usernames are not checked: [getUserByUsername] keeps returning
    an older user of the same name and returns the new user only when the
    name was free; lookups of other names are unchanged. *)
Theorem X14_createUser_then_lookups :
  forall uuid now insertUser t,
    JsMap.get uuid (users t) = None ->
    let created := createUser uuid now insertUser t in
    let user := snd created in
    getUser uuid (fst created) = Some user
    /\ User.id user = uuid
    /\ User.totalScore user = Some 0
    /\ User.gamesPlayed user = Some 0
    /\ (exists avatar, User.avatar user = Some avatar /\ avatar <> "")
    /\ (forall k, k <> uuid -> getUser k (fst created) = getUser k t)
    /\ getUserByUsername (new_username insertUser) (fst created)
       = match getUserByUsername (new_username insertUser) t with
         | Some older => Some older
         | None => Some user
         end
    /\ (forall name, name <> new_username insertUser ->
        getUserByUsername name (fst created) = getUserByUsername name t).
Proof.
  intros uuid now insertUser t Hfresh created user. subst user created.
  unfold createUser, getUser, getUserByUsername. simpl.
  split; [apply get_set_same|]. split; [reflexivity|].
  split; [reflexivity|]. split; [reflexivity|]. split.
  - eexists. split; [reflexivity|]. apply string_or_not_empty. discriminate.
  - split; [intros k Hne; now apply get_set_other|].
    rewrite values_set_fresh by assumption. split.
    + rewrite find_snoc. simpl. now rewrite String.eqb_refl.
    + intros name Hne. rewrite find_snoc. simpl.
      destruct (String.eqb_spec (new_username insertUser) name); [congruence|].
      now destruct (find _ _).
Qed.

Lemma X14_createUser_then_lookups_witness :
  let ada := mkInsertUser "ada" "hash-1" "Ada" None in
  let twin := mkInsertUser "ada" "hash-2" "Other Ada" (Some "") in
  let t1 := fst (createUser "id-1" 10 ada emptyTables) in
  let t2 := fst (createUser "id-2" 20 twin t1) in
  getUserByUsername "ada" t2 = getUser "id-1" t1
  /\ getUser "id-2" t2 = Some (snd (createUser "id-2" 20 twin t1)).
Proof.
  destruct (X14_createUser_then_lookups "id-2" 20
              (mkInsertUser "ada" "hash-2" "Other Ada" (Some ""))
              (fst (createUser "id-1" 10
                      (mkInsertUser "ada" "hash-1" "Ada" None) emptyTables))
              eq_refl)
    as (Hget & _ & _ & _ & _ & _ & Hname & _).
  split; [exact Hname | exact Hget].
Defined.

(** ** POST /api/users/update-score *)

Lemma updateUserScore_other userId newScore t k :
  k <> userId -> getUser k (updateUserScore userId newScore t) = getUser k t.
Proof.
  intros Hne. unfold updateUserScore, getUser.
  destruct (JsMap.get userId (users t)); [|reflexivity].
  simpl. now apply get_set_other.
Qed.

(** X15.  Who may change a score.  The reply of the update-score route is a
    new score only when the session's userId is non-empty, equals the userId
    of a well-formed body and names a stored user; then exactly that user's
    [totalScore] is set to the replied score, every other user and all
    results are as before.  With any other reply (401, 400, 403, 404) the
    tables are unchanged. *)
Theorem X15_update_score_only_for_the_session_user :
  forall session body t,
    let result := post_update_score session body t in
    match snd result with
    | json_score newScore =>
        exists userId user,
          session = Some userId /\ userId <> ""
          /\ body_userId body = Some userId
          /\ getUser userId t = Some user
          /\ getUser userId (fst result)
             = Some (User.with_totalScore newScore user)
          /\ (forall k, k <> userId -> getUser k (fst result) = getUser k t)
          /\ map fst (users (fst result)) = map fst (users t)
          /\ gameResults (fst result) = gameResults t
          /\ soloResults (fst result) = soloResults t
    | _ => fst result = t
    end.
Proof.
  intros session body t result. subst result. unfold post_update_score.
  destruct (requireAuth session) eqn:Eauth; simpl; [|reflexivity].
  destruct (parseScoreBody body) as [[[userId pointsChange] isSoloMode]|] eqn:Ep;
    simpl; [|reflexivity].
  destruct (same session (Some userId)) eqn:Esame; simpl; [|reflexivity].
  destruct (getUser userId t) as [user|] eqn:Eu; simpl; [|reflexivity].
  apply same_true in Esame. subst session.
  exists userId, user.
  split; [reflexivity|]. split.
  { unfold requireAuth, truthy in Eauth.
    destruct (String.eqb_spec userId ""); [discriminate | assumption]. }
  split.
  { unfold parseScoreBody in Ep.
    destruct (body_userId body), (body_pointsChange body),
      (body_isSoloMode body); try discriminate.
    destruct (_ && _); [|discriminate]. congruence. }
  split; [exact Eu|].
  unfold updateUserScore, getUser in *. rewrite Eu. simpl.
  split; [apply get_set_same|].
  split; [intros k Hne; now apply get_set_other|].
  split; [now apply set_keys_present with (v0 := user)|].
  split; reflexivity.
Qed.

(** X16.  The arithmetic of update-score.  A body whose [pointsChange] is
    outside [-1000, 1000] is refused with 400.  On success the replied score
    is, with [current] the stored score (0 when null): in solo mode
    [current + max 0 pointsChange], so the score never goes down; otherwise
    [max 0 (current + pointsChange)], so it never goes below 0.  In both
    modes a score that was not negative stays so and moves by at most
    1000. *)
Theorem X16_update_score_arithmetic :
  forall userId pointsChange isSoloMode t,
    let body := mkScoreBody (Some userId) (Some pointsChange) (Some isSoloMode) in
    let result := post_update_score (Some userId) body t in
    (pointsChange < -1000 \/ 1000 < pointsChange ->
     userId <> "" -> result = (t, json_error 400 "Invalid input"))
    /\ forall newScore user,
         snd result = json_score newScore ->
         getUser userId t = Some user ->
         let current := number_or (User.totalScore user) 0 in
         -1000 <= pointsChange <= 1000
         /\ (isSoloMode = Some true ->
             newScore = current + Z.max 0 pointsChange /\ current <= newScore)
         /\ (isSoloMode <> Some true ->
             newScore = Z.max 0 (current + pointsChange) /\ 0 <= newScore)
         /\ (0 <= current ->
             0 <= newScore /\ current - 1000 <= newScore <= current + 1000).
Proof.
  intros userId pointsChange isSoloMode t body result.
  subst result body.
  unfold post_update_score, parseScoreBody, requireAuth, truthy.
  cbn [body_userId body_pointsChange body_isSoloMode].
  assert (Hsame : same (Some userId) (Some userId) = true)
    by now apply same_true.
  destruct (String.eqb_spec userId "") as [->|Hu]; cbn [negb].
  { split; [intros _ Hu; congruence|]. intros newScore user Hreply. discriminate. }
  destruct (Z.leb_spec (-1000) pointsChange);
    destruct (Z.leb_spec pointsChange 1000); cbn [andb negb fst snd].
  2-4: split; [reflexivity | intros newScore user Hreply; discriminate].
  rewrite Hsame. cbn [negb].
  split; [intros Hout; lia|].
  intros newScore user Hreply Huser. rewrite Huser in Hreply.
  cbn [snd] in Hreply. injection Hreply as <-.
  split; [lia|]. split; [intros ->; lia|]. split.
  - intros Hmode. destruct isSoloMode as [[|]|]; try congruence; lia.
  - intros Hcur. destruct isSoloMode as [[|]|]; lia.
Qed.

Lemma X16_update_score_arithmetic_witness :
  let t := fst (createUser "id-1" 10 (mkInsertUser "ada" "hash" "Ada" None)
                  emptyTables) in
  snd (post_update_score (Some "id-1")
         (mkScoreBody (Some "id-1") (Some (-40)) (Some None)) t)
  = json_score 0
  /\ snd (post_update_score (Some "id-1")
            (mkScoreBody (Some "id-1") (Some 2000) (Some None)) t)
     = json_error 400 "Invalid input".
Proof.
  split; [reflexivity|].
  assert (Hu : "id-1" <> "") by discriminate.
  destruct (X16_update_score_arithmetic "id-1" 2000 None
              (fst (createUser "id-1" 10 (mkInsertUser "ada" "hash" "Ada" None)
                      emptyTables))) as [Hrefused _].
  rewrite Hrefused; [reflexivity | lia | exact Hu].
Defined.

(** ** The solo leaderboard *)

Lemma beats_false result existing :
  isDate (SoloResult.createdAt result) = true ->
  isDate (SoloResult.createdAt existing) = true ->
  beats result existing = false -> atLeastAsGood existing result.
Proof.
  unfold beats, atLeastAsGood.
  destruct (SoloResult.createdAt result) as [x|]; [|discriminate].
  destruct (SoloResult.createdAt existing) as [y|]; [|discriminate].
  intros _ _ H. cbn [earlier millis] in *.
  apply orb_false_iff in H as [H1 H2]. apply Z.ltb_ge in H1.
  destruct (Z.eqb_spec (SoloResult.score result) (SoloResult.score existing));
    simpl in H2; [apply Z.ltb_ge in H2|]; lia.
Qed.

Lemma beats_true result existing r :
  isDate (SoloResult.createdAt result) = true ->
  isDate (SoloResult.createdAt existing) = true ->
  beats result existing = true ->
  atLeastAsGood existing r -> atLeastAsGood result r.
Proof.
  unfold beats, atLeastAsGood.
  destruct (SoloResult.createdAt result) as [x|]; [|discriminate].
  destruct (SoloResult.createdAt existing) as [y|]; [|discriminate].
  intros _ _ H. cbn [earlier millis] in *.
  apply orb_true_iff in H as [H|H]; [apply Z.ltb_lt in H; lia|].
  apply andb_true_iff in H as [H1 H2].
  apply Z.eqb_eq in H1. apply Z.ltb_lt in H2. lia.
Qed.

Lemma atLeastAsGood_refl r : atLeastAsGood r r.
Proof. unfold atLeastAsGood. lia. Qed.

Lemma bestOf_replace t seen best r user :
  bestOf t seen best ->
  JsMap.get (SoloResult.userId r) (users t) = Some user ->
  (forall existing r',
     JsMap.get (SoloResult.userId r) best = Some existing ->
     atLeastAsGood (best_result existing) r' ->
     atLeastAsGood r r') ->
  bestOf t (seen ++ [r]) (JsMap.set (SoloResult.userId r) (mkBest r user) best).
Proof.
  intros (Hnd & Hin & Hbest) Huser Hdom.
  split; [now apply NoDup_keys_set|]. split.
  - intros k b Hb. apply In_set_inv in Hb as [[= -> ->]|Hb].
    + simpl. repeat split; [|assumption].
      apply in_or_app. right. now left.
    + destruct (Hin k b Hb) as (H1 & H2 & H3).
      repeat split; try assumption. apply in_or_app. now left.
  - intros r' user' Hr' Huser'.
    destruct (String.eqb_spec (SoloResult.userId r') (SoloResult.userId r))
      as [Heq|Hne].
    + rewrite Heq, get_set_same. eexists. split; [reflexivity|]. simpl.
      apply in_app_or in Hr' as [Hr'|[<-|[]]]; [|apply atLeastAsGood_refl].
      destruct (Hbest r' user' Hr' Huser') as (b & Hb & Hgood).
      rewrite Heq in Hb. now apply (Hdom b r').
    + rewrite get_set_other by assumption.
      apply in_app_or in Hr' as [Hr'|[<-|[]]]; [|congruence].
      now apply (Hbest r' user').
Qed.

Lemma bestOf_keep t seen best r :
  bestOf t seen best ->
  (forall user, JsMap.get (SoloResult.userId r) (users t) = Some user ->
                exists existing,
                  JsMap.get (SoloResult.userId r) best = Some existing
                  /\ atLeastAsGood (best_result existing) r) ->
  bestOf t (seen ++ [r]) best.
Proof.
  intros (Hnd & Hin & Hbest) Hex. split; [assumption|]. split.
  - intros k b Hb. destruct (Hin k b Hb) as (H1 & H2 & H3).
    repeat split; try assumption. apply in_or_app. now left.
  - intros r' user' Hr' Huser'.
    apply in_app_or in Hr' as [Hr'|[<-|[]]]; [now apply (Hbest r' user')|].
    now apply (Hex user').
Qed.

Lemma considerResult_bestOf t seen best r :
  isDate (SoloResult.createdAt r) = true ->
  (forall x, In x seen -> isDate (SoloResult.createdAt x) = true) ->
  bestOf t seen best -> bestOf t (seen ++ [r]) (considerResult t best r).
Proof.
  intros Hr Hseen H. unfold considerResult.
  destruct (JsMap.get (SoloResult.userId r) (users t)) as [user|] eqn:Eu.
  - destruct (JsMap.get (SoloResult.userId r) best) as [existing|] eqn:Eb.
    + assert (Hexisting : isDate (SoloResult.createdAt (best_result existing))
                          = true).
      { apply Hseen. destruct H as (_ & Hin & _).
        apply get_In in Eb. now destruct (Hin _ _ Eb). }
      destruct (beats r (best_result existing)) eqn:Ebeats.
      * apply bestOf_replace; try assumption.
        intros existing' r' Hex Hgood.
        assert (existing' = existing) by congruence. subst existing'.
        now apply beats_true with (best_result existing).
      * apply bestOf_keep; [assumption|]. intros user' _.
        exists existing. split; [assumption | now apply beats_false].
    + apply bestOf_replace; try assumption.
      intros existing r' Hex. congruence.
  - apply bestOf_keep; [assumption|]. intros user' Huser'. congruence.
Qed.

Lemma fold_bestOf t l : forall seen best,
  (forall x, In x (seen ++ l) -> isDate (SoloResult.createdAt x) = true) ->
  bestOf t seen best ->
  bestOf t (seen ++ l) (fold_left (considerResult t) l best).
Proof.
  induction l as [|r l IH]; intros seen best Hdates H; simpl.
  - now rewrite app_nil_r.
  - replace (seen ++ r :: l) with ((seen ++ [r]) ++ l) in *
      by (rewrite <- app_assoc; reflexivity).
    apply IH; [exact Hdates|].
    apply considerResult_bestOf; [| |exact H].
    + apply Hdates. apply in_or_app. left. apply in_or_app. right. now left.
    + intros x Hx. apply Hdates. apply in_or_app. left.
      apply in_or_app. now left.
Qed.

Lemma datedResults_values t :
  datedResults t ->
  forall x, In x (JsMap.values (soloResults t)) ->
            isDate (SoloResult.createdAt x) = true.
Proof.
  intros H x Hx. unfold JsMap.values in Hx.
  apply in_map_iff in Hx as [[k r] [<- Hx]]. exact (H k r Hx).
Qed.

Lemma userBestScores_bestOf t :
  datedResults t ->
  bestOf t (JsMap.values (soloResults t)) (userBestScores t).
Proof.
  intros Hdates. unfold userBestScores.
  apply (fold_bestOf t (JsMap.values (soloResults t)) [] []).
  - now apply datedResults_values.
  - split; [constructor|]. split; [intros k b []|intros r user []].
Qed.

Lemma byScoreThenTime_before a b c :
  byScoreThenTime a b = Some c -> c <= 0 -> ranksBefore a b.
Proof.
  unfold byScoreThenTime, ranksBefore.
  destruct (Z.eqb_spec (LeaderboardEntry.score a) (LeaderboardEntry.score b));
    cbn [negb].
  - intros H Hc. right. split; [assumption|].
    now apply timeDifference_before with c.
  - intros [= <-] Hc. left. lia.
Qed.

Lemma byScoreThenTime_after a b c :
  byScoreThenTime a b = Some c -> 0 < c -> ranksBefore b a.
Proof.
  unfold byScoreThenTime, ranksBefore.
  destruct (Z.eqb_spec (LeaderboardEntry.score a) (LeaderboardEntry.score b));
    cbn [negb].
  - intros H Hc. right. split; [congruence|].
    now apply timeDifference_after with c.
  - intros [= <-] Hc. left. lia.
Qed.

Lemma ranksBefore_trans a b c :
  ranksBefore a b -> ranksBefore b c -> ranksBefore a c.
Proof.
  unfold ranksBefore. intros [H1|[H1 H1']] [H2|[H2 H2']].
  - left. lia.
  - left. lia.
  - left. lia.
  - right. split; [lia|].
    now apply notLater_trans with (LeaderboardEntry.timestamp b).
Qed.

Lemma byScoreThenTime_dates a b :
  isDate (LeaderboardEntry.timestamp a) = true ->
  isDate (LeaderboardEntry.timestamp b) = true ->
  byScoreThenTime a b <> None.
Proof.
  intros Ha Hb. unfold byScoreThenTime.
  destruct (negb _); [discriminate|].
  now rewrite timeDifference_dates.
Qed.

(** The board is computed when the solo results hold dates. *)
Lemma soloLeaderboard_returns t :
  datedResults t -> exists board, soloLeaderboard t = Some board.
Proof.
  intros Hdates. unfold soloLeaderboard.
  destruct (userBestScores_bestOf t Hdates) as (_ & Hin & _).
  assert (Hentries : forall e,
            In e (map toEntry (JsMap.values (userBestScores t))) ->
            isDate (LeaderboardEntry.timestamp e) = true).
  { intros e He. apply in_map_iff in He as [b [<- Hb]].
    unfold JsMap.values in Hb. apply in_map_iff in Hb as [[k b'] [<- Hb]].
    destruct (Hin k b' Hb) as (Hseen & _).
    simpl. now apply (datedResults_values t Hdates). }
  apply array_sort_defined. intros x y Hx Hy.
  apply byScoreThenTime_dates; now apply Hentries.
Qed.

Lemma soloLeaderboard_sorted t board :
  soloLeaderboard t = Some board -> StronglySorted ranksBefore board.
Proof.
  intros E. unfold soloLeaderboard in E.
  apply (array_sort_sorted byScoreThenTime) with (R := ranksBefore) in E;
    [exact E| | |].
  - apply byScoreThenTime_before.
  - apply byScoreThenTime_after.
  - apply ranksBefore_trans.
Qed.

Lemma soloLeaderboard_In t board e :
  soloLeaderboard t = Some board ->
  In e board <-> exists k b, In (k, b) (userBestScores t) /\ e = toEntry b.
Proof.
  unfold soloLeaderboard. intros E. apply array_sort_perm in E. split.
  - intros Hin. apply (Permutation_in _ E) in Hin.
    apply in_map_iff in Hin as [b [<- Hb]].
    unfold JsMap.values in Hb. apply in_map_iff in Hb as [[k b'] [<- Hb]].
    now exists k, b'.
  - intros (k & b & Hb & ->).
    apply (Permutation_in _ (Permutation_sym E)).
    apply in_map. unfold JsMap.values.
    now apply (in_map snd) in Hb.
Qed.

Lemma soloLeaderboard_ids t board :
  usersKeyed t -> datedResults t -> soloLeaderboard t = Some board ->
  NoDup (map LeaderboardEntry.id board).
Proof.
  intros Hkeyed Hdates E.
  destruct (userBestScores_bestOf t Hdates) as (Hnd & Hin & _).
  unfold soloLeaderboard in E. apply array_sort_perm in E.
  apply (Permutation_NoDup
           (Permutation_sym (Permutation_map LeaderboardEntry.id E))).
  assert (Hmap : forall best : JsMap.t Best,
    (forall k b, In (k, b) best -> User.id (best_user b) = k) ->
    map LeaderboardEntry.id (map toEntry (JsMap.values best)) = map fst best).
  { induction best as [|[k b] best IH]; intros Hall; [reflexivity|]. simpl.
    rewrite (Hall k b (or_introl eq_refl)). f_equal.
    apply IH. intros k' b' H. apply Hall. now right. }
  rewrite Hmap; [assumption|].
  intros k b Hb. destruct (Hin k b Hb) as (_ & _ & Huser).
  apply Hkeyed. now apply get_In.
Qed.

(** X17.  The solo leaderboard, for tables whose users are stored under their
    ids and whose solo results hold a [Date] (none was read back from the
    data file).  [getSoloLeaderboard] returns a page.  The page holds at most
    [limit] rows, ranked by score from the highest and, for equal scores, by
    the earlier time.  No user has two rows.  Every row is made of a stored
    result of a stored user, and that result is the user's best: no result
    of the same user has a higher score, nor the same score at an earlier
    time. *)
Theorem X17_leaderboard_ranks_each_users_best :
  forall limit offset t,
    usersKeyed t ->
    datedResults t ->
    exists rows,
      getSoloLeaderboard limit offset t = Some rows
      /\ (0 <= limit -> (List.length rows <= Z.to_nat limit)%nat)
      /\ StronglySorted ranksBefore rows
      /\ NoDup (map LeaderboardEntry.id rows)
      /\ forall e, In e rows ->
           exists result user,
             In result (map snd (soloResults t))
             /\ getUser (SoloResult.userId result) t = Some user
             /\ e = toEntry (mkBest result user)
             /\ forall other,
                  In other (map snd (soloResults t)) ->
                  SoloResult.userId other = SoloResult.userId result ->
                  SoloResult.score other <= LeaderboardEntry.score e
                  /\ (SoloResult.score other = LeaderboardEntry.score e ->
                      notLater (LeaderboardEntry.timestamp e)
                               (SoloResult.createdAt other)).
Proof.
  intros limit offset t Hkeyed Hdates.
  destruct (soloLeaderboard_returns t Hdates) as [board Eboard].
  exists (js_slice offset (offset + limit) board).
  unfold getSoloLeaderboard. rewrite Eboard.
  split; [reflexivity|].
  split; [intros Hlimit; now apply js_slice_length|].
  split; [apply js_slice_sorted; now apply soloLeaderboard_sorted with t|].
  split; [apply js_slice_NoDup; now apply soloLeaderboard_ids with t|].
  intros e He. apply js_slice_In in He.
  apply (soloLeaderboard_In t board e Eboard) in He as (k & b & Hb & ->).
  destruct (userBestScores_bestOf t Hdates) as (Hnd & Hin & Hbest).
  destruct (Hin k b Hb) as (Hseen & Hk & Huser).
  exists (best_result b), (best_user b).
  split; [assumption|].
  split; [unfold getUser; now rewrite Hk|].
  split; [now destruct b|].
  intros other Hother Hsame.
  assert (Huser' : JsMap.get (SoloResult.userId other) (users t)
                   = Some (best_user b)) by (rewrite Hsame, Hk; exact Huser).
  destruct (Hbest other _ Hother Huser') as (b' & Hb' & Hgood).
  rewrite Hsame, Hk in Hb'.
  rewrite (NoDup_keys_get _ _ _ Hnd Hb) in Hb'. injection Hb' as <-.
  pose proof (datedResults_values t Hdates _ Hseen) as Hd1.
  pose proof (datedResults_values t Hdates _ Hother) as Hd2.
  unfold atLeastAsGood in Hgood. cbn [toEntry LeaderboardEntry.score
    LeaderboardEntry.timestamp].
  split; [lia|]. intros Heq.
  destruct (SoloResult.createdAt (best_result b)) as [x|]; [|discriminate].
  destruct (SoloResult.createdAt other) as [y|]; [|discriminate].
  cbn [millis] in Hgood. exists x, y. repeat split. lia.
Qed.

Lemma usersKeyed_sample : usersKeyed sampleTables.
Proof.
  intros k user [H|[H|[]]]; injection H as <- <-; reflexivity.
Qed.

Lemma datedResults_sample : datedResults sampleTables.
Proof.
  intros k result [H|[H|[H|[H|[]]]]]; injection H as <- <-; reflexivity.
Qed.

Lemma X17_leaderboard_ranks_each_users_best_witness :
  exists rows,
    getSoloLeaderboard 50 0 sampleTables = Some rows
    /\ map (fun e => (LeaderboardEntry.id e, LeaderboardEntry.score e,
                      LeaderboardEntry.timestamp e)) rows
       = [("id-1", 70, Date 100); ("id-2", 50, Date 200)]
    /\ NoDup (map LeaderboardEntry.id rows).
Proof.
  destruct (X17_leaderboard_ranks_each_users_best 50 0 sampleTables
              usersKeyed_sample datedResults_sample)
    as (rows & Hrows & _ & _ & Hnd & _).
  exists rows. split; [exact Hrows|]. split; [|exact Hnd].
  vm_compute in Hrows. injection Hrows as <-. reflexivity.
Defined.

Lemma soloLeaderboard_complete t board r user :
  datedResults t ->
  soloLeaderboard t = Some board ->
  In r (JsMap.values (soloResults t)) ->
  getUser (SoloResult.userId r) t = Some user ->
  exists e, In e board
            /\ LeaderboardEntry.id e = User.id user
            /\ SoloResult.score r <= LeaderboardEntry.score e.
Proof.
  intros Hdates Eboard Hr Huser.
  destruct (userBestScores_bestOf t Hdates) as (Hnd & Hin & Hbest).
  destruct (Hbest r user Hr Huser) as (b & Hb & Hgood).
  apply get_In in Hb. destruct (Hin _ _ Hb) as (_ & _ & Hu).
  unfold getUser in Huser. rewrite Huser in Hu. injection Hu as ->.
  exists (toEntry b). split; [|split].
  - apply (soloLeaderboard_In t board _ Eboard).
    now exists (SoloResult.userId r), b.
  - reflexivity.
  - unfold atLeastAsGood in Hgood. simpl. lia.
Qed.

(** ** POST /api/solo/save *)

Lemma parseSoloBody_Some body parsed :
  parseSoloBody body = Some parsed ->
  sb_userId body = Some (solo_userId parsed)
  /\ sb_score body = solo_score parsed
  /\ sb_correctAnswers body = solo_correctAnswers parsed
  /\ (exists score, solo_score parsed = Some score /\ 0 <= score <= 1000)
  /\ (exists correct, solo_correctAnswers parsed = Some correct
                      /\ 0 <= correct <= 1000)
  /\ 1 <= solo_totalQuestions parsed <= 1000
  /\ (forall ms, solo_averageTime parsed = Some ms -> 0 <= ms <= 3600000)
  /\ solo_difficulty parsed <> "".
Proof.
  unfold parseSoloBody, within.
  destruct (sb_userId body) as [userId|]; [|discriminate].
  destruct (sb_score body) as [score|]; [|discriminate].
  destruct (sb_correctAnswers body) as [correct|]; [|discriminate].
  destruct (sb_totalQuestions body) as [total|]; [|discriminate].
  destruct (sb_averageTime body) as [averageTime|]; [|discriminate].
  destruct (sb_difficulty body) as [difficulty|]; [|discriminate].
  destruct (_ && _) eqn:E; [|discriminate].
  intros [= <-]. simpl.
  repeat (apply andb_true_iff in E as [E ?]).
  repeat match goal with
         | H : (_ <=? _) = true |- _ => apply Z.leb_le in H
         | H : (_ <=? _)%nat = true |- _ => apply Nat.leb_le in H
         end.
  split; [reflexivity|]. split; [reflexivity|]. split; [reflexivity|].
  split; [exists score; split; [reflexivity | lia]|].
  split; [exists correct; split; [reflexivity | lia]|].
  split; [lia|]. split.
  - intros ms ->. apply andb_true_iff in H1 as [Hlo Hhi].
    apply Z.leb_le in Hlo. apply Z.leb_le in Hhi. lia.
  - intros ->. simpl in *. lia.
Qed.

(** X18.  Saving a solo result.  The reply of the solo-save route is an id
    only when the session's userId is non-empty and equals the userId of a
    body within the bounds of the schema; the result is then stored under
    the replied id for that user, with the body's score in [0, 1000], the
    correct answers in [0, 1000] and the questions in [1, 1000]; users and
    game results are untouched.  With any other reply the tables are
    unchanged, and the reply "Missing required solo result data" is never
    given: the checks before it leave it no case. *)
Theorem X18_solo_save_stores_for_the_session_user :
  forall uuid now session body t,
    let result := post_solo_save uuid now session body t in
    snd result <> json_error 400 "Missing required solo result data"
    /\ match snd result with
       | json_saved id =>
           id = uuid
           /\ exists userId stored,
                session = Some userId /\ userId <> ""
                /\ sb_userId body = Some userId
                /\ JsMap.get id (soloResults (fst result)) = Some stored
                /\ SoloResult.userId stored = userId
                /\ sb_score body = Some (SoloResult.score stored)
                /\ 0 <= SoloResult.score stored <= 1000
                /\ 0 <= SoloResult.correctAnswers stored <= 1000
                /\ 1 <= SoloResult.totalQuestions stored <= 1000
                /\ SoloResult.difficulty stored <> ""
                /\ users (fst result) = users t
                /\ gameResults (fst result) = gameResults t
       | _ => fst result = t
       end.
Proof.
  intros uuid now session body t result. subst result.
  unfold post_solo_save.
  destruct (requireAuth session) eqn:Eauth; cbn [negb];
    [|split; [discriminate | reflexivity]].
  destruct (parseSoloBody body) as [parsed|] eqn:Ep;
    [|split; [discriminate | reflexivity]].
  destruct (same session (Some (solo_userId parsed))) eqn:Esame; cbn [negb];
    [|split; [discriminate | reflexivity]].
  apply same_true in Esame. subst session.
  destruct (parseSoloBody_Some _ _ Ep)
    as (Huid & Hscore & Hcorrect & (score & Hs & Hsb) & (correct & Hc & Hcb)
        & Htotal & Havg & Hdiff).
  assert (Hu : solo_userId parsed <> "").
  { unfold requireAuth, truthy in Eauth.
    destruct (String.eqb_spec (solo_userId parsed) ""); [discriminate|assumption]. }
  apply String.eqb_neq in Hu. rewrite Hu.
  assert (Ht : (solo_totalQuestions parsed =? 0) = false)
    by (apply Z.eqb_neq; lia).
  rewrite Ht. cbn [orb]. unfold addSoloResult. cbn [fst snd SoloResult.id].
  split; [discriminate|]. split; [reflexivity|].
  eexists _, _. split; [reflexivity|].
  split; [now apply String.eqb_neq|].
  split; [exact Huid|].
  split; [cbn [soloResults]; apply get_set_same|].
  cbn [SoloResult.userId SoloResult.score SoloResult.correctAnswers
       SoloResult.totalQuestions SoloResult.difficulty solo_userId solo_score
       solo_correctAnswers solo_totalQuestions solo_difficulty users
       gameResults].
  rewrite Hs, Hc. unfold number_or. rewrite !or_default_zero.
  split; [reflexivity|]. split; [congruence|].
  split; [lia|]. split; [lia|]. split; [lia|]. split.
  - apply string_or_not_empty. discriminate.
  - split; reflexivity.
Qed.

Lemma solo_save_saved uuid now userId body t id :
  snd (post_solo_save uuid now (Some userId) body t) = json_saved id ->
  exists stored,
    JsMap.get id (soloResults (fst (post_solo_save uuid now (Some userId) body t)))
    = Some stored
    /\ SoloResult.userId stored = userId
    /\ sb_score body = Some (SoloResult.score stored)
    /\ users (fst (post_solo_save uuid now (Some userId) body t)) = users t.
Proof.
  unfold post_solo_save.
  destruct (requireAuth (Some userId)); cbn [negb]; [|discriminate].
  destruct (parseSoloBody body) as [parsed|] eqn:Ep; [|discriminate].
  destruct (same (Some userId) (Some (solo_userId parsed))) eqn:Esame;
    cbn [negb]; [|discriminate].
  apply same_true in Esame. injection Esame as ->.
  destruct (_ || _); [discriminate|].
  unfold addSoloResult. cbn [fst snd SoloResult.id]. intros [= <-].
  destruct (parseSoloBody_Some _ _ Ep)
    as (_ & Hscore & _ & (score & Hs & _) & _).
  eexists. cbn [soloResults users]. split; [apply get_set_same|].
  cbn [SoloResult.userId SoloResult.score solo_userId solo_score].
  split; [reflexivity|]. split; [|reflexivity].
  rewrite Hscore, Hs. unfold number_or. now rewrite or_default_zero.
Qed.

Lemma solo_save_dated uuid now session body t :
  datedResults t -> datedResults (fst (post_solo_save uuid now session body t)).
Proof.
  intros Hdates. unfold post_solo_save.
  destruct (negb (requireAuth session)); [exact Hdates|].
  destruct (parseSoloBody body) as [parsed|]; [|exact Hdates].
  destruct (negb (same session (Some (solo_userId parsed)))); [exact Hdates|].
  destruct (_ || _); [exact Hdates|].
  unfold addSoloResult. cbn [fst]. intros k result Hin.
  cbn [soloResults] in Hin.
  apply In_set_inv in Hin as [[= -> ->]|Hin]; [reflexivity|].
  exact (Hdates k result Hin).
Qed.

(** X19.  From save to board, for tables whose solo results hold a [Date]
    (none was read back from the data file).  When the solo-save route
    replies with an id for a user who has an account, the full leaderboard
    of the resulting tables is computed and has a row of that user whose
    score is at least the saved score. *)
Theorem X19_saved_score_reaches_the_board :
  forall uuid now userId body t user score id,
    datedResults t ->
    getUser userId t = Some user ->
    sb_score body = Some score ->
    snd (post_solo_save uuid now (Some userId) body t) = json_saved id ->
    exists board e,
      soloLeaderboard (fst (post_solo_save uuid now (Some userId) body t))
      = Some board
      /\ In e board
      /\ LeaderboardEntry.id e = User.id user
      /\ score <= LeaderboardEntry.score e.
Proof.
  intros uuid now userId body t user score id Hdates Huser Hscore Hreply.
  destruct (solo_save_saved uuid now userId body t id Hreply)
    as (stored & Hget & Hstored & Hsc & Husers).
  assert (score = SoloResult.score stored) by congruence. subst score.
  pose proof (solo_save_dated uuid now (Some userId) body t Hdates) as Hdates'.
  destruct (soloLeaderboard_returns _ Hdates') as [board Eboard].
  destruct (soloLeaderboard_complete _ board stored user Hdates' Eboard)
    as (e & He).
  - apply get_In in Hget. now apply (in_map snd) in Hget.
  - unfold getUser in *. now rewrite Hstored, Husers.
  - now exists board, e.
Qed.

Lemma X19_saved_score_reaches_the_board_witness :
  exists board e,
    soloLeaderboard
      (fst (post_solo_save "s5" 500 (Some "id-2")
              (mkSoloBody (Some "id-2") (Some 60) (Some 6) (Some 10)
                 (Some None) (Some "hard") None None) sampleTables))
    = Some board
    /\ In e board
    /\ LeaderboardEntry.id e = "id-2"
    /\ 60 <= LeaderboardEntry.score e.
Proof.
  exact (X19_saved_score_reaches_the_board "s5" 500 "id-2"
           (mkSoloBody (Some "id-2") (Some 60) (Some 6) (Some 10)
              (Some None) (Some "hard") None None)
           sampleTables
           (User.mk "id-2" "bob" "hash-2" "Bob" (Some "👤") (Some 0) (Some 0) (Date 20))
           60 "s5" datedResults_sample eq_refl eq_refl eq_refl).
Defined.

(** ** Pages of the leaderboard *)

Lemma js_slice_page {A} offset limit (l : list A) :
  0 <= offset -> 0 <= limit ->
  js_slice offset (offset + limit) l
  = firstn (Z.to_nat limit) (skipn (Z.to_nat offset) l).
Proof.
  intros Ho Hl. unfold js_slice, relative_index.
  destruct (Z.ltb_spec offset 0); [lia|].
  destruct (Z.ltb_spec (offset + limit) 0); [lia|].
  set (len := Z.of_nat (List.length l)).
  destruct (Z.le_gt_cases len offset) as [Hbeyond|Hinside].
  - rewrite (skipn_all2 l) by (subst len; lia).
    rewrite (skipn_all2 l) by (subst len; lia).
    now rewrite !firstn_nil.
  - rewrite (Z.min_l offset len) by lia.
    assert (Hm : List.length (skipn (Z.to_nat offset) l)
                 = Z.to_nat (len - offset))
      by (rewrite length_skipn; subst len; lia).
    destruct (Z.le_gt_cases (offset + limit) len) as [Hfits|Hshort].
    + rewrite Z.min_l by lia. f_equal. lia.
    + rewrite Z.min_r by lia.
      rewrite <- Hm, firstn_all.
      symmetry. apply firstn_all2. lia.
Qed.

Lemma firstn_pages {A} a b : forall m : list A,
  firstn a m ++ firstn b (skipn a m) = firstn (a + b) m.
Proof.
  induction a as [|a IH]; intros m; [reflexivity|].
  destruct m as [|x m]; simpl; [now rewrite firstn_nil|].
  now rewrite IH.
Qed.

(** X20.  Paging, for tables whose solo results hold a [Date] (none was read
    back from the data file).  The board is computed, and for a non-negative
    offset and limit a page of the solo leaderboard is the [limit] rows that
    follow the first [offset] rows of the board; a page followed by the next
    page is the page of both limits together, and a page that starts at or
    after the end of the board is empty. *)
Theorem X20_leaderboard_pages_tile_the_board :
  forall limit next offset t,
    0 <= offset -> 0 <= limit -> 0 <= next ->
    datedResults t ->
    exists board page following,
      soloLeaderboard t = Some board
      /\ getSoloLeaderboard limit offset t = Some page
      /\ page = firstn (Z.to_nat limit) (skipn (Z.to_nat offset) board)
      /\ getSoloLeaderboard next (offset + limit) t = Some following
      /\ getSoloLeaderboard (limit + next) offset t = Some (page ++ following)
      /\ (Z.of_nat (List.length board) <= offset -> page = []).
Proof.
  intros limit next offset t Ho Hl Hn Hdates.
  destruct (soloLeaderboard_returns t Hdates) as [board Eboard].
  exists board. unfold getSoloLeaderboard. rewrite Eboard. cbn [option_map].
  rewrite !js_slice_page by lia.
  eexists _, _. split; [reflexivity|]. split; [reflexivity|].
  split; [reflexivity|]. split; [reflexivity|]. split.
  - f_equal. symmetry. rewrite Z2Nat.inj_add by lia.
    rewrite (Nat.add_comm (Z.to_nat offset)), <- skipn_skipn.
    rewrite Z2Nat.inj_add by lia. apply firstn_pages.
  - intros Hend. rewrite skipn_all2 by lia. apply firstn_nil.
Qed.

Lemma X20_leaderboard_pages_tile_the_board_witness :
  exists page following,
    getSoloLeaderboard 1 0 sampleTables = Some page
    /\ getSoloLeaderboard 1 1 sampleTables = Some following
    /\ getSoloLeaderboard 2 0 sampleTables = Some (page ++ following)
    /\ List.length following = 1%nat.
Proof.
  assert (H0 : 0 <= 0) by lia. assert (H1 : 0 <= 1) by lia.
  destruct (X20_leaderboard_pages_tile_the_board 1 1 0 sampleTables
              H0 H1 H1 datedResults_sample)
    as (board & page & following & _ & Hpage & _ & Hnext & Hboth & _).
  exists page, following.
  split; [exact Hpage|]. split; [exact Hnext|]. split; [exact Hboth|].
  vm_compute in Hnext. injection Hnext as <-. reflexivity.
Defined.

(** ** GET /api/leaderboard/solo *)

(** X21.  The leaderboard route replies with rows exactly when [limit] is
    absent or an integer in [1, 100], [offset] is absent or an integer in
    [0, 5000], and [getSoloLeaderboard] returns; the rows are then the page
    for these values, 50 and 0 standing for absent ones, and there are at
    most 100 of them.  Otherwise, for a parameter out of its range and for a
    board whose sort throws alike, the reply is the error 500 and never a
    partial list.  When the solo results hold a [Date], the board does not
    throw, and the reply is decided by the parameters. *)
Theorem X21_leaderboard_route_bounds :
  forall limit offset t,
    match get_leaderboard_solo limit offset t with
    | json_leaderboard rows =>
        exists l o board,
          parseQueryNumber 1 100 50 limit = Some l
          /\ parseQueryNumber 0 5000 0 offset = Some o
          /\ 1 <= l <= 100 /\ 0 <= o <= 5000
          /\ soloLeaderboard t = Some board
          /\ rows = firstn (Z.to_nat l) (skipn (Z.to_nat o) board)
          /\ (List.length rows <= 100)%nat
    | json_error status text =>
        status = 500 /\ text = "Failed to get leaderboard"
        /\ (parseQueryNumber 1 100 50 limit = None
            \/ parseQueryNumber 0 5000 0 offset = None
            \/ soloLeaderboard t = None)
        /\ (datedResults t ->
            parseQueryNumber 1 100 50 limit = None
            \/ parseQueryNumber 0 5000 0 offset = None)
    | _ => False
    end.
Proof.
  intros limit offset t. unfold get_leaderboard_solo.
  assert (Hrange : forall lo hi d q n,
            lo <= d <= hi -> parseQueryNumber lo hi d q = Some n ->
            lo <= n <= hi).
  { intros lo hi d q n Hd. destruct q as [|x|]; simpl.
    - intros [= <-]. exact Hd.
    - unfold within.
      destruct (Z.leb_spec lo x); destruct (Z.leb_spec x hi); simpl;
        try discriminate.
      intros [= <-]. lia.
    - discriminate. }
  destruct (parseQueryNumber 1 100 50 limit) as [l|] eqn:El;
    [|repeat split; intros; now left].
  destruct (parseQueryNumber 0 5000 0 offset) as [o|] eqn:Eo;
    [|repeat split; intros; right; solve [reflexivity | now left]].
  assert (Hl : 1 <= l <= 100) by (apply (Hrange 1 100 50 limit); [lia|assumption]).
  assert (Ho : 0 <= o <= 5000) by (apply (Hrange 0 5000 0 offset); [lia|assumption]).
  unfold getSoloLeaderboard.
  destruct (soloLeaderboard t) as [board|] eqn:Eboard; cbn [option_map].
  - exists l, o, board. repeat split; try lia.
    + apply js_slice_page; lia.
    + etransitivity; [apply js_slice_length; lia|]. lia.
  - repeat split; [right; now right|].
    intros Hdates. destruct (soloLeaderboard_returns t Hdates) as [board E].
    congruence.
Qed.

(** ** Which socket a frame arrives on *)

Lemma bindings_set_room k r player (m : JsMap.t Player.t) :
  JsMap.get k m = Some player ->
  map binding (JsMap.set k (Player.with_roomId r player) m) = map binding m.
Proof.
  induction m as [|[k0 v0] m IH]; simpl; [discriminate|].
  destruct (String.eqb_spec k0 k) as [->|Hne]; simpl.
  - intros [= ->]. reflexivity.
  - intros H. now rewrite IH.
Qed.

(** X22.  Frames carry their userId in the payload and the coordinator never
    compares it with the socket they arrive on.  For every frame but
    [join_lobby], the repository and the registry after the frame are the
    same whichever socket sent it, and the registry still binds the same
    userIds to the same sockets, in the same order: only [join_lobby] binds
    a socket, and only room ids change otherwise. *)
Theorem X22_frames_are_not_tied_to_their_socket :
  forall env ws ws' f w,
    match f with
    | join_lobby _ => True
    | _ =>
        fst (on_message env ws f w) = fst (on_message env ws' f w)
        /\ map binding (connectedPlayers (fst (on_message env ws f w)))
           = map binding (connectedPlayers w)
    end.
Proof.
  intros env ws ws' f w.
  assert (Hset : forall u r,
    map binding (setPlayerRoom u r (connectedPlayers w))
    = map binding (connectedPlayers w)).
  { intros u r. unfold setPlayerRoom.
    destruct (JsMap.get u (connectedPlayers w)) as [p|] eqn:E; [|reflexivity].
    now apply bindings_set_room. }
  destruct f; cbn [on_message]; try exact I; try (split; reflexivity).
  - unfold on_create_room. destruct userId as [u|]; [|split; reflexivity].
    destruct (u =? "")%string; [split; reflexivity|].
    cbn [fst connectedPlayers createGameRoom]. split; [reflexivity|apply Hset].
  - unfold on_join_room. destruct roomId as [r|], userId as [u|];
      try (split; reflexivity).
    cbn [fst connectedPlayers]. split; [reflexivity | apply Hset].
  - unfold on_leave_room. destruct userId as [u|]; cbn [lookupPlayer];
      [|split; reflexivity].
    destruct (JsMap.get u (connectedPlayers w)) as [p|] eqn:E;
      [|split; reflexivity].
    destruct (Player.roomId p) as [r|]; [|split; reflexivity].
    destruct (r =? "")%string; [split; reflexivity|].
    cbn [fst connectedPlayers]. split; [reflexivity|].
    now apply bindings_set_room.
Qed.

(** ** Registering again while in a room *)



(** ** Joining another room without leaving *)

(** X24.  [join_room] never leaves a room.  When a registered user who is in
    room [r1] joins another room [r2] (with a new participant id), the
    registry entry moves to [r2], while room [r1] keeps its player count and
    the user keeps every participant row in [r1]: the old seat stays
    taken. *)
Theorem X24_joining_another_room_keeps_the_old_seat :
  forall env ws u r1 r2 player room1 w,
    JsMap.get u (connectedPlayers w) = Some player ->
    Player.roomId player = Some r1 ->
    r1 <> r2 ->
    getGameRoom r1 (storage w) = Some room1 ->
    JsMap.get (participantUuid env) (gameParticipants (storage w)) = None ->
    let w' := fst (on_message env ws (join_room (Some r2) (Some u)) w) in
    JsMap.get u (connectedPlayers w')
    = Some (Player.with_roomId (Some r2) player)
    /\ getGameRoom r1 (storage w') = Some room1
    /\ membershipsOf r1 u (storage w') = membershipsOf r1 u (storage w)
    /\ List.length (membershipsOf r2 u (storage w'))
       = S (List.length (membershipsOf r2 u (storage w))).
Proof.
  intros env ws u r1 r2 player room1 w Hget Hroom Hne Hroom1 Hfresh w'.
  subst w'. rewrite on_join_room_eq. cbn [fst connectedPlayers storage].
  split.
  { unfold setPlayerRoom. rewrite Hget. apply get_set_same. }
  unfold getGameRoom, membershipsOf, joinGameRoom, addParticipant in *.
  cbn [fst gameRooms gameParticipants].
  rewrite values_set_fresh by assumption. rewrite !filter_app.
  cbn [filter]. unfold isMembership at 2 5.
  cbn [GameParticipant.roomId GameParticipant.userId].
  rewrite String.eqb_refl.
  destruct (String.eqb_spec r2 r1) as [Heq|_]; [congruence|].
  rewrite String.eqb_refl. cbn [andb].
  split; [|split].
  - destruct (JsMap.get r2 (gameRooms (storage w))); [|assumption].
    now rewrite get_set_other.
  - apply app_nil_r.
  - rewrite List.length_app. simpl. lia.
Qed.

Lemma X24_joining_another_room_keeps_the_old_seat_witness :
  let w := fst (step (Message env2 connB
                        (create_room (Some "u2") None None None)) triviaFor4) in
  let w' := fst (on_message env3 connA
                   (join_room (Some "room-2") (Some "u1")) w) in
  option_map GameRoom.currentPlayers (getGameRoom "room-1" (storage w')) = Some 2
  /\ List.length (membershipsOf "room-1" "u1" (storage w')) = 1%nat
  /\ option_map Player.roomId (JsMap.get "u1" (connectedPlayers w'))
     = Some (Some "room-2").
Proof.
  assert (Hne : "room-1" <> "room-2") by discriminate.
  destruct (X24_joining_another_room_keeps_the_old_seat env3 connA "u1"
              "room-1" "room-2" (Player.mk connA "u1" (Some "room-1"))
              (GameRoom.mk "room-1" "Trivia Night" "u1" "waiting" 4 2 None
                 None 0 (Date 1000) None None)
              (fst (step (Message env2 connB
                            (create_room (Some "u2") None None None))
                      triviaFor4))
              eq_refl eq_refl Hne eq_refl eq_refl)
    as (Hentry & Hroom & Hrows & _).
  split; [now rewrite Hroom|]. split; [now rewrite Hrows|].
  now rewrite Hentry.
Defined.

(** ** get_rooms: what is listed, and when the listing fails *)

Lemma notOlder_before a b c :
  newestFirst a b = Some c -> c <= 0 -> notOlder a b.
Proof. apply timeDifference_before. Qed.

Lemma notOlder_after a b c :
  newestFirst a b = Some c -> 0 < c -> notOlder b a.
Proof. apply timeDifference_after. Qed.

Lemma notOlder_trans a b c : notOlder a b -> notOlder b c -> notOlder a c.
Proof.
  unfold notOlder. intros H1 H2.
  now apply notLater_trans with (GameRoom.createdAt b).
Qed.

(** X25.  [get_rooms], for every world.  Nothing is changed.  The sort of
    [getGameRooms] throws exactly when two or more rooms are waiting and one
    of them was read back from the data file (its [createdAt] is text); the
    requester is then sent the one frame [error] 'Failed to get rooms'.
    Otherwise the requester is sent one [rooms_list] frame with the stored
    rooms whose status is "waiting", those and no others, the newest
    first. *)
Theorem X25_get_rooms_lists_or_fails :
  forall env ws w,
    let result := on_message env ws get_rooms w in
    let waiting := filter isWaiting (map snd (gameRooms (storage w))) in
    let unreadable :=
      (2 <= List.length waiting)%nat
      /\ exists room, In room waiting
                      /\ isDate (GameRoom.createdAt room) = false in
    fst result = w
    /\ match getGameRooms (storage w) with
       | None =>
           unreadable
           /\ snd result = [(ws, error "Failed to get rooms")]
       | Some rooms =>
           ~ unreadable
           /\ snd result = [(ws, rooms_list rooms)]
           /\ Permutation rooms waiting
           /\ (forall room,
                 In room rooms <->
                 (exists k, In (k, room) (gameRooms (storage w)))
                 /\ GameRoom.status room = "waiting")
           /\ StronglySorted notOlder rooms
       end.
Proof.
  intros env ws w result waiting unreadable.
  split; [reflexivity|].
  pose proof (array_sort_throws GameRoom.createdAt newestFirst
                newestFirst_throws waiting) as Hthrows.
  subst result. cbn [on_message on_get_rooms snd].
  unfold getGameRooms, JsMap.values. fold waiting.
  destruct (array_sort newestFirst waiting) as [rooms|] eqn:E;
    [|split; [now apply Hthrows | reflexivity]].
  assert (Hperm : Permutation rooms waiting) by now apply array_sort_perm in E.
  split; [intros H; apply Hthrows in H; discriminate|].
  split; [reflexivity|]. split; [exact Hperm|]. split.
  - intros room. split.
    + intros Hin. apply (Permutation_in _ Hperm) in Hin.
      apply filter_In in Hin as [Hin Hw]. split.
      * apply in_map_iff in Hin as [[k room'] [<- Hin]]. now exists k.
      * now apply String.eqb_eq in Hw.
    + intros [[k Hin] Hw]. apply (Permutation_in _ (Permutation_sym Hperm)).
      apply filter_In. split; [now apply (in_map snd) in Hin|].
      now apply String.eqb_eq.
  - apply (array_sort_sorted newestFirst) with (l := waiting); [| | |exact E].
    + apply notOlder_before.
    + apply notOlder_after.
    + apply notOlder_trans.
Qed.

(** ** The listings after a restart *)

Lemma reloadDate_text toISOString d : isDate (reloadDate toISOString d) = false.
Proof. now destruct d. Qed.

Lemma get_reloadMap {V} (f : V -> V) k (m : JsMap.t V) :
  JsMap.get k (reloadMap f m) = option_map f (JsMap.get k m).
Proof.
  induction m as [|[k0 v0] m IH]; simpl; [reflexivity|].
  now destruct (k0 =? k)%string.
Qed.

Lemma array_sort_reloaded {A} (key : A -> DateField) cmp (l : list A) :
  (forall x y, cmp x y = None <-> isDate (key x) && isDate (key y) = false) ->
  (forall x, In x l -> isDate (key x) = false) ->
  array_sort cmp l = None <-> (2 <= List.length l)%nat.
Proof.
  intros Hcmp Htext. rewrite (array_sort_throws key cmp Hcmp). split.
  - now intros [H _].
  - intros H. split; [exact H|].
    destruct l as [|x l]; [simpl in H; lia|].
    exists x. split; [now left | apply Htext; now left].
Qed.

(** X27.  A server that starts on the data file of its predecessor finds the
    rooms and the participants under the ids they had, every field as it
    was except the dates, which are text.  From then on [getGameRooms]
    throws exactly when two or more of the rooms read back are waiting, and
    [getParticipants] throws exactly for the rooms with two or more rows
    read back. *)
Theorem X27_listings_after_a_restart :
  forall toISOString st roomId,
    let reloaded := reloadStorage toISOString st in
    (forall k, getGameRoom k reloaded
               = option_map (reloadGameRoom toISOString) (getGameRoom k st))
    /\ map fst (gameRooms reloaded) = map fst (gameRooms st)
    /\ map fst (gameParticipants reloaded) = map fst (gameParticipants st)
    /\ (getGameRooms reloaded = None <->
        (2 <= List.length (filter isWaiting (map snd (gameRooms st))))%nat)
    /\ (getParticipants roomId reloaded = None <->
        (2 <= List.length
                (filter (fun row => (GameParticipant.roomId row =? roomId)%string)
                        (map snd (gameParticipants st))))%nat).
Proof.
  intros toISOString st roomId reloaded. subst reloaded.
  unfold reloadStorage, getGameRoom, getGameRooms, getParticipants,
    JsMap.values, reloadMap.
  cbn [gameRooms gameParticipants].
  split; [intros k; apply get_reloadMap|].
  rewrite !map_map. cbn [fst snd].
  split; [reflexivity|]. split; [reflexivity|].
  rewrite <- (map_map snd (reloadGameRoom toISOString)).
  rewrite <- (map_map snd (reloadParticipant toISOString)).
  rewrite !filter_map_swap. split.
  - rewrite (array_sort_reloaded GameRoom.createdAt newestFirst _
               newestFirst_throws).
    + now rewrite length_map.
    + intros x Hx. apply in_map_iff in Hx as [room [<- _]].
      apply reloadDate_text.
  - rewrite (array_sort_reloaded GameParticipant.joinedAt oldestFirst _
               oldestFirst_throws).
    + now rewrite length_map.
    + intros x Hx. apply in_map_iff in Hx as [row [<- _]].
      apply reloadDate_text.
Qed.
